(** * vpn_monitor.py: the Sentry watchdog

    A shallow embedding of [src/vpn_monitor.py].  The class [Sentry] polls
    [nordvpn status]; while the tunnel is up it keeps the commands of
    [command_list] running, and while it is down it kills them.

    - [Text]   : the string operations the script uses ([str.split],
                 substring [in], the two regular expressions, [int]).
    - [Dict]   : the insertion-ordered dictionary [command_pids].
    - [Sys]    : the operating-system calls, their failures and the trace
                 of calls a run leaves behind.
    - [Sentry] : the methods of the class, in a state-and-error monad.
    - [Script] : a concrete operating system that replays scripted answers.
    - [Spec]   : the notions the properties are stated with.

    Texts are Rocq strings, one [ascii] per code point: the model covers
    decoded outputs whose code points are below 256. *)

From Stdlib Require Import String Ascii ZArith NArith List Lia Bool.
From stdpp Require Import base strings gmap list pretty.

#[local] Arguments String.append !s1 s2 : simpl nomatch.

(** ** Strings and regular expressions *)

Module Text.

(** [\s] of a [str] pattern: the code points [str.isspace] accepts. *)
Definition is_space (c : ascii) : bool :=
  let n := N_of_ascii c in
  ((9 <=? n) && (n <=? 13) || (28 <=? n) && (n <=? 32)
   || (n =? 133) || (n =? 160))%N.

(** [\d] of a [str] pattern: decimal digits. *)
Definition is_digit (c : ascii) : bool :=
  let n := N_of_ascii c in ((48 <=? n) && (n <=? 57))%N.

(** [\w] of a [str] pattern: alphanumeric code points and the underscore. *)
Definition is_word (c : ascii) : bool :=
  let n := N_of_ascii c in
  ((48 <=? n) && (n <=? 57) || (65 <=? n) && (n <=? 90)
   || (97 <=? n) && (n <=? 122) || (n =? 95)
   || (n =? 170) || (n =? 178) || (n =? 179) || (n =? 181)
   || (n =? 185) || (n =? 186) || (188 <=? n) && (n <=? 190)
   || (192 <=? n) && (n <=? 214) || (216 <=? n) && (n <=? 246)
   || (248 <=? n))%N.

Definition newline : ascii := ascii_of_N 10.

(** The dot of a pattern: any character but a newline. *)
Definition is_dot (c : ascii) : bool := negb (Ascii.eqb c newline).

Fixpoint all_chars (p : ascii -> bool) (s : string) : bool :=
  match s with
  | EmptyString => true
  | String c s' => p c && all_chars p s'
  end.

(** The longest prefix of [s] made of characters satisfying [p], and the
    rest: how a greedy [\s*], [\d+] or [\w+] consumes its input. *)
Fixpoint span (p : ascii -> bool) (s : string) : string * string :=
  match s with
  | EmptyString => (EmptyString, EmptyString)
  | String c s' =>
      if p c then let (a, b) := span p s' in (String c a, b)
      else (EmptyString, s)
  end.

(** [b] does not start with a character of the class [p]. *)
Definition stops (p : ascii -> bool) (b : string) : Prop :=
  match b with
  | EmptyString => True
  | String c _ => p c = false
  end.

(** [str.split] on a separator: the pieces between separators, empty
    ones kept. *)
Fixpoint split (sep : ascii) (s : string) : list string :=
  match s with
  | EmptyString => [EmptyString]
  | String c s' =>
      if Ascii.eqb c sep then EmptyString :: split sep s'
      else match split sep s' with
           | [] => [String c EmptyString]
           | piece :: pieces => String c piece :: pieces
           end
  end.

(** What is left of [s] after the prefix [p], when [s] starts with [p]. *)
Fixpoint strip_prefix (p s : string) : option string :=
  match p, s with
  | EmptyString, _ => Some s
  | String a p', String b s' =>
      if Ascii.eqb a b then strip_prefix p' s' else None
  | String _ _, EmptyString => None
  end.

Definition starts_with (p s : string) : bool :=
  match strip_prefix p s with Some _ => true | None => false end.

(** [sub in s] on [str]: [sub] occurs in [s] as a substring. *)
Fixpoint contains (sub s : string) : bool :=
  starts_with sub s
  || match s with
     | EmptyString => false
     | String _ s' => contains sub s'
     end.

(** [int(digits)] for a non-empty run of decimal digits. *)
Fixpoint int_acc (acc : Z) (s : string) : Z :=
  match s with
  | EmptyString => acc
  | String c s' => int_acc (10 * acc + (Z.of_N (N_of_ascii c) - 48)) s'
  end.

Definition int (s : string) : Z := int_acc 0 s.

(** [re.fullmatch] of the [ps] pattern on a line: optional whitespace, a
    group of one or more digits, one space, a group holding the rest of
    the line.  Returns the two groups, or [None].  Whitespace and digits
    are disjoint, so the greedy parse is the only one; the dot of the
    second group refuses a newline. *)
Definition fullmatch_ps (line : string) : option (string * string) :=
  let (_, s1) := span is_space line in
  let (digits, s2) := span is_digit s1 in
  match digits, s2 with
  | String _ _, String sp details =>
      if Ascii.eqb sp " " && all_chars is_dot details
      then Some (digits, details)
      else None
  | _, _ => None
  end.

(** The status pattern tried at the start of [s]: the literal text
    Status, colon, space, then a group of one or more word characters. *)
Definition match_status_here (s : string) : option string :=
  match strip_prefix "Status: " s with
  | Some rest =>
      match fst (span is_word rest) with
      | EmptyString => None
      | String c w => Some (String c w)
      end
  | None => None
  end.

(** [re.search] of the status pattern: the group of the leftmost match. *)
Fixpoint search_status (s : string) : option string :=
  match match_status_here s with
  | Some w => Some w
  | None =>
      match s with
      | EmptyString => None
      | String _ s' => search_status s'
      end
  end.

(** [repr] of a list of integers, as [str.format] prints it. *)
Definition repr_pids (pids : list Z) : string :=
  "[" +:+ String.concat ", " (map pretty pids) +:+ "]".

End Text.

(** ** The dictionary [command_pids]

    A Python [dict] keeps its keys in insertion order, and [kill_processes]
    walks it in that order: an association list with one entry per key. *)

Module Dict.

Definition t : Type := list (string * list Z).


(** [d[cmd]] *)
Fixpoint lookup (cmd : string) (d : t) : option (list Z) :=
  match d with
  | [] => None
  | (k, v) :: d' => if String.eqb k cmd then Some v else lookup cmd d'
  end.

(** [d[cmd].append(pid)] when [cmd in d], [d[cmd] = [pid]] otherwise. *)
Fixpoint append (cmd : string) (pid : Z) (d : t) : t :=
  match d with
  | [] => [(cmd, [pid])]
  | (k, v) :: d' =>
      if String.eqb k cmd then (k, v ++ [pid]) :: d'
      else (k, v) :: append cmd pid d'
  end.

(** [d.keys()] *)
Definition keys (d : t) : list string := map fst d.

(** Every pid of the dictionary, in the order [kill_processes] meets them. *)
Definition all_pids (d : t) : list Z := concat (map snd d).

(** What a dictionary built by [append] is: no key twice, and no key with
    an empty list. *)
Definition well_formed (d : t) : Prop :=
  NoDup (keys d) /\ forall k v, In (k, v) d -> v <> [].

End Dict.

(** ** Operating-system calls *)

Module Sys.

(** The errors a call can raise. *)
Inductive exn : Type :=
| ProcessLookupError
| PermissionError
| FileNotFoundError
| UnicodeDecodeError
| OSError
| KeyboardInterrupt.

Inductive result (A : Type) : Type :=
| Return (a : A)
| Raise (e : exn).
Arguments Return {A} a.
Arguments Raise {A} e.

(** A [subprocess.Popen] object, named by the child it stands for. *)
Definition Popen : Type := nat.

(** One entry of the trace: a call made by the script with its outcome,
    or a line printed. *)
Inductive event : Type :=
| Print (line : string)
| Status (r : result string)
| Connect (r : result unit)
| Ps (r : result string)
| Kill (pid : Z) (r : result unit)
| Spawn (cmd : string) (r : result Popen)
| Wait (h : Popen) (r : result unit)
| Sleep (secs : Z) (r : result unit).

(** The calls of the script on a world [W].  Each returns its value or
    raises, and leaves a new world.
    - [nordvpn_status]: [subprocess.run] of [nordvpn status] and the
      decoding of its standard output;
    - [nordvpn_c]: [subprocess.call] of [nordvpn c];
    - [ps_x]: [subprocess.run] of [ps -x] and the decoding of its output;
    - [os_kill pid]: [os.kill] with [SIGKILL];
    - [popen cmd]: [subprocess.Popen];
    - [popen_wait h]: the [wait] method of a [Popen] object;
    - [sleep secs]: [time.sleep]. *)
Record OS (W : Type) : Type := {
  nordvpn_status : W -> result string * W;
  nordvpn_c : W -> result unit * W;
  ps_x : W -> result string * W;
  os_kill : Z -> W -> result unit * W;
  popen : string -> W -> result Popen * W;
  popen_wait : Popen -> W -> result unit * W;
  sleep : Z -> W -> result unit * W
}.
Arguments nordvpn_status {W} _ _.
Arguments nordvpn_c {W} _ _.
Arguments ps_x {W} _ _.
Arguments os_kill {W} _ _ _.
Arguments popen {W} _ _ _.
Arguments popen_wait {W} _ _ _.
Arguments sleep {W} _ _ _.

(** Projections of a trace. *)
Fixpoint kills (tr : list event) : list Z :=
  match tr with
  | [] => []
  | Kill pid _ :: tr' => pid :: kills tr'
  | _ :: tr' => kills tr'
  end.

Fixpoint spawns (tr : list event) : list string :=
  match tr with
  | [] => []
  | Spawn cmd _ :: tr' => cmd :: spawns tr'
  | _ :: tr' => spawns tr'
  end.

Fixpoint waits (tr : list event) : list Popen :=
  match tr with
  | [] => []
  | Wait h _ :: tr' => h :: waits tr'
  | _ :: tr' => waits tr'
  end.

Fixpoint listings (tr : list event) : nat :=
  match tr with
  | [] => 0
  | Ps _ :: tr' => S (listings tr')
  | _ :: tr' => listings tr'
  end.

(** How many times [nordvpn c] was called, and the durations slept. *)
Fixpoint connects (tr : list event) : nat :=
  match tr with
  | [] => 0
  | Connect _ :: tr' => S (connects tr')
  | _ :: tr' => connects tr'
  end.

Fixpoint sleeps (tr : list event) : list Z :=
  match tr with
  | [] => []
  | Sleep secs _ :: tr' => secs :: sleeps tr'
  | _ :: tr' => sleeps tr'
  end.

(** How many times [line] was printed. *)
Fixpoint printed (line : string) (tr : list event) : nat :=
  match tr with
  | [] => 0
  | Print l :: tr' => (if String.eqb l line then 1 else 0) + printed line tr'
  | _ :: tr' => printed line tr'
  end.

End Sys.

(** ** The class [Sentry] *)

Module Sentry.
Import Sys.

(** The attributes set by [__init__]. *)
Record t : Type := {
  poll_rate : Z;
  command_list : list string;
  processes : gmap string Popen
}.

(** [Sentry()] *)
Definition init : t := {|
  poll_rate := 20;
  command_list := ["deluged"; "deluge-web"];
  processes := ∅
|}.

Definition with_processes (self : t) (p : gmap string Popen) : t := {|
  poll_rate := poll_rate self;
  command_list := command_list self;
  processes := p
|}.

(** *** Pure parts of the methods *)

(** [check_vpn] after the call: [groups] is the empty tuple or holds the
    one captured word, and the answer is whether Connected is in it. *)
Definition check_output (output : string) : bool :=
  let groups := match Text.search_status output with
                | None => []
                | Some w => [w]
                end in
  existsb (String.eqb "Connected") groups.

(** The inner loop of the first pass of [parse_ps]: one entry for every
    command that occurs in the details of the line. *)
Fixpoint found_in_line (pid : Z) (details : string) (cmds : list string)
  : list (string * Z * string) :=
  match cmds with
  | [] => []
  | cmd :: cmds' =>
      if Text.contains cmd details
      then (cmd, pid, details) :: found_in_line pid details cmds'
      else found_in_line pid details cmds'
  end.

(** The first pass of [parse_ps]: [processes_found] for a list of lines. *)
Fixpoint found_in_lines (cmds : list string) (lines : list string)
  : list (string * Z * string) :=
  match lines with
  | [] => []
  | line :: lines' =>
      match Text.fullmatch_ps line with
      | Some (pid, details) =>
          found_in_line (Text.int pid) details cmds
          ++ found_in_lines cmds lines'
      | None => found_in_lines cmds lines'
      end
  end.

Definition processes_found (cmds : list string) (output : string)
  : list (string * Z * string) :=
  found_in_lines cmds (Text.split Text.newline output).

Definition defunct (details : string) : bool :=
  Text.contains "<defunct>" details.

(** *** The monad of the methods

    A method reads and updates the object, talks to the operating
    system, and returns or raises.  Its run yields the outcome, the
    object and the world it leaves, and the trace of what it did. *)
Section Methods.
Context {W : Type} (os : OS W).

Record outcome (A : Type) : Type := Run {
  res : result A;
  self' : t;
  world' : W;
  log : list event
}.
Arguments Run {A} _ _ _ _.
Arguments res {A} _.
Arguments self' {A} _.
Arguments world' {A} _.
Arguments log {A} _.

(** The value of a run that returned. *)
Definition returned {A} (r : outcome A) : option A :=
  match res r with
  | Return a => Some a
  | Raise _ => None
  end.

Definition M (A : Type) : Type := t -> W -> outcome A.

Definition ret {A} (a : A) : M A := fun self w => Run (Return a) self w [].

Definition bind {A B} (m : M A) (k : A -> M B) : M B :=
  fun self w =>
    let r := m self w in
    match res r with
    | Return a =>
        let r2 := k a (self' r) (world' r) in
        Run (res r2) (self' r2) (world' r2) (log r ++ log r2)
    | Raise e => Run (Raise e) (self' r) (world' r) (log r)
    end.

Notation "x <- m ;; k" := (bind m (fun x => k))
  (at level 100, m at next level, right associativity).
Notation "m ;; k" := (bind m (fun _ => k))
  (at level 100, right associativity).

(** A call to the operating system, recorded with its outcome. *)
Definition sys {A} (call : W -> result A * W) (ev : result A -> event)
  : M A :=
  fun self w => let (r, w') := call w in Run r self w' [ev r].

(** [print]: the line goes to the trace; writing to the console is taken
    not to fail. *)
Definition print (line : string) : M unit :=
  fun self w => Run (Return tt) self w [Print line].

Definition get {A} (field : t -> A) : M A :=
  fun self w => Run (Return (field self)) self w [].

Definition set_processes (p : gmap string Popen) : M unit :=
  fun self w => Run (Return tt) (with_processes self p) w [].

(** *** Methods *)

Definition connect_vpn : M unit := sys (nordvpn_c os) Connect.

Definition check_vpn : M bool :=
  output <- sys (nordvpn_status os) Status ;;
  ret (check_output output).

(** The second pass of [parse_ps]: a defunct entry of a command with a
    handle has the handle waited for and popped; any other entry adds
    its pid to [command_pids]. *)
Fixpoint reap_or_list (found : list (string * Z * string))
    (command_pids : Dict.t) : M Dict.t :=
  match found with
  | [] => ret command_pids
  | (cmd, pid, details) :: found' =>
      procs <- get processes ;;
      match (if defunct details then procs !! cmd else None) with
      | Some h =>
          sys (popen_wait os h) (Wait h) ;;
          set_processes (delete cmd procs) ;;
          reap_or_list found' command_pids
      | None => reap_or_list found' (Dict.append cmd pid command_pids)
      end
  end.

Definition parse_ps : M Dict.t :=
  output <- sys (ps_x os) Ps ;;
  cmds <- get command_list ;;
  reap_or_list (processes_found cmds output) [].

(** The loop of [run_commands]. *)
Fixpoint start_missing (cmds : list string) (running_cmds : list string)
  : M unit :=
  match cmds with
  | [] => ret tt
  | cmd :: cmds' =>
      if existsb (String.eqb cmd) running_cmds
      then start_missing cmds' running_cmds
      else
        print ("Starting " +:+ cmd +:+ "...") ;;
        h <- sys (popen os cmd) (Spawn cmd) ;;
        procs <- get processes ;;
        set_processes (<[cmd := h]> procs) ;;
        start_missing cmds' running_cmds
  end.

Definition run_commands : M unit :=
  command_pids <- parse_ps ;;
  cmds <- get command_list ;;
  start_missing cmds (Dict.keys command_pids).

(** The inner and the outer loop of [kill_processes]. *)
Fixpoint kill_pids (pids : list Z) : M unit :=
  match pids with
  | [] => ret tt
  | pid :: pids' => sys (os_kill os pid) (Kill pid) ;; kill_pids pids'
  end.

Fixpoint kill_each (command_pids : Dict.t) : M unit :=
  match command_pids with
  | [] => ret tt
  | (cmd, pids) :: rest =>
      print ("Killing " +:+ cmd +:+ Text.repr_pids pids +:+ "...") ;;
      kill_pids pids ;;
      kill_each rest
  end.

Definition kill_processes : M unit :=
  command_pids <- parse_ps ;;
  kill_each command_pids.

(** One turn of the [while True] of [loop]; [connected] is the local
    variable, returned as the turn leaves it. *)
Definition loop_body (connected : bool) : M bool :=
  up <- check_vpn ;;
  if up then
    connected <- (if negb connected
                  then print "Connected to VPN." ;; ret true
                  else ret connected) ;;
    run_commands ;;
    secs <- get poll_rate ;;
    sys (sleep os secs) (Sleep secs) ;;
    ret connected
  else
    connected <- (if connected
                  then print "VPN disconnected." ;; ret false
                  else ret connected) ;;
    kill_processes ;;
    print "Connecting to VPN..." ;;
    connect_vpn ;;
    ret connected.

(** [n] turns of the loop.  The loop has no exit of its own: a run that
    returns here is a loop still turning after [n] turns, and the value
    is its variable [connected]. *)
Fixpoint loop_from (n : nat) (connected : bool) : M bool :=
  match n with
  | O => ret connected
  | S n' => c <- loop_body connected ;; loop_from n' c
  end.

Definition loop (n : nat) : M bool := loop_from n false.

(** The [finally] clause of [run]. *)
Definition cleanup : M unit :=
  print "Loop terminated." ;; kill_processes.

(** [run], watched for [n] turns of the loop.  When the loop raises,
    the [finally] clause runs and the error goes on, replaced by the
    error of the clause if that raises too.  While the loop turns the
    clause has not been reached. *)
Definition run (n : nat) : M bool :=
  fun self w =>
    let r := loop n self w in
    match res r with
    | Return c => r
    | Raise e =>
        let r2 := cleanup (self' r) (world' r) in
        Run (match res r2 with
             | Return _ => Raise e
             | Raise e2 => Raise e2
             end)
            (self' r2) (world' r2) (log r ++ log r2)
    end.


End Methods.

Arguments outcome W A : clear implicits.
Arguments M W A : clear implicits.
Arguments Run {W A} _ _ _ _.
Arguments res {W A} _.
Arguments self' {W A} _.
Arguments world' {W A} _.
Arguments log {W A} _.
Arguments returned {W A} _.

End Sentry.

(** ** A scripted operating system

    The answers of [nordvpn status] and of [ps -x] are read off two lists;
    when a list runs out the call is interrupted from the keyboard.  A pid
    in [gone] has exited, a command in [absent] is not installed. *)

Module Script.
Import Sys.

Record world : Type := {
  statuses : list string;
  tables : list string;
  gone : list Z;
  absent : list string;
  children : nat
}.

Definition status (w : world) : result string * world :=
  match statuses w with
  | [] => (Raise KeyboardInterrupt, w)
  | out :: rest =>
      (Return out,
       {| statuses := rest; tables := tables w; gone := gone w;
          absent := absent w; children := children w |})
  end.

Definition table (w : world) : result string * world :=
  match tables w with
  | [] => (Raise KeyboardInterrupt, w)
  | out :: rest =>
      (Return out,
       {| statuses := statuses w; tables := rest; gone := gone w;
          absent := absent w; children := children w |})
  end.

Definition kill (pid : Z) (w : world) : result unit * world :=
  if existsb (Z.eqb pid) (gone w) then (Raise ProcessLookupError, w)
  else (Return tt, w).

Definition spawn (cmd : string) (w : world) : result Popen * world :=
  if existsb (String.eqb cmd) (absent w) then (Raise FileNotFoundError, w)
  else (Return (children w),
        {| statuses := statuses w; tables := tables w; gone := gone w;
           absent := absent w; children := S (children w) |}).

Definition os : OS world := {|
  nordvpn_status := status;
  nordvpn_c := fun w => (Return tt, w);
  ps_x := table;
  os_kill := kill;
  popen := spawn;
  popen_wait := fun _ w => (Return tt, w);
  sleep := fun _ w => (Return tt, w)
|}.

(** Lines joined by newlines, as a listing is printed. *)
Fixpoint lines (ls : list string) : string :=
  match ls with
  | [] => EmptyString
  | l :: ls' => l +:+ String Text.newline (lines ls')
  end.

(** The listing of the scenario of the specification. *)
Definition listing_text : string :=
  lines ["  123 deluged --flag"; " 456 unrelated-proc"].

(** Both commands run, as [ps -x] shows them. *)
Definition both_running : string :=
  lines ["    PID TTY      STAT   TIME COMMAND";
         "    101 ?        Sl     0:07 /usr/bin/python3 /usr/bin/deluged";
         "    102 ?        Sl     0:01 /usr/bin/python3 /usr/bin/deluge-web"].

(** One defunct child and two defunct children of the name deluged. *)
Definition one_zombie : string :=
  lines ["     77 ?        Z      0:00 [deluged] <defunct>"].

Definition two_zombies : string :=
  lines ["     77 ?        Z      0:00 [deluged] <defunct>";
         "     78 ?        Z      0:00 [deluged] <defunct>"].

Definition world_of (statuses tables : list string) (gone : list Z)
    (absent : list string) : world :=
  {| statuses := statuses; tables := tables; gone := gone;
     absent := absent; children := 0 |}.

(** The tunnel is up for two turns and down on the third. *)
Definition up_up_down : world :=
  world_of ["Status: Connected"; "Status: Connected"; "Status: Disconnected"]
           [EmptyString; both_running; both_running] [] [].

(** The tunnel is down, then up; both commands are listed, and pid 101
    has exited by the time it is killed. *)
Definition down_stale_pid : world :=
  world_of ["Status: Disconnected"; "Status: Connected"]
           [both_running; both_running] [101%Z] [].

(** Listings with one and with two defunct entries. *)
Definition lists_one_zombie : world := world_of [] [one_zombie] [] [].

Definition lists_two_zombies : world :=
  world_of ["Status: Connected"] [two_zombies] [] [].





Definition interrupted : world := world_of [] [both_running] [] [].

(** What the enumeration makes of [both_running], and the details of an
    entry of [one_zombie]. *)
Definition both_listed : Dict.t :=
  [("deluged", [101%Z]); ("deluge-web", [102%Z])].

Definition zombie_details : string :=
  "?        Z      0:00 [deluged] <defunct>".

(** A sentry that launched deluged as child 0. *)
Definition owning_deluged : Sentry.t :=
  Sentry.with_processes Sentry.init (<["deluged" := 0]> ∅).

End Script.

(** ** The words of the specification *)

Module Spec.
Import Sys.

(** [post] does not go on with a word character: the word before it
    cannot be extended. *)
Definition word_ends (post : string) : Prop :=
  match post with
  | EmptyString => True
  | String c _ => Text.is_word c = false
  end.

(** The text [out] holds, after [pre], a status field whose word is [w]. *)
Definition status_field (out pre w post : string) : Prop :=
  out = pre +:+ "Status: " +:+ w +:+ post
  /\ w <> EmptyString
  /\ Text.all_chars Text.is_word w = true
  /\ word_ends post.

(** No status field of [out] starts before the one after [pre]. *)
Definition leftmost (out pre : string) : Prop :=
  forall pre' w' post',
    status_field out pre' w' post' -> String.length pre <= String.length pre'.

(** The shape of a line of the process listing. *)
Definition ps_line (line digits details : string) : Prop :=
  exists ws,
    line = ws +:+ digits +:+ " " +:+ details
    /\ Text.all_chars Text.is_space ws = true
    /\ digits <> EmptyString
    /\ Text.all_chars Text.is_digit digits = true.

(** The probe's answers recorded in a trace, oldest first. *)
Fixpoint probes (tr : list event) : list bool :=
  match tr with
  | [] => []
  | Status (Return out) :: tr' => Sentry.check_output out :: probes tr'
  | _ :: tr' => probes tr'
  end.

(** Changes to connected and changes to disconnected along a list of
    answers, [prev] being the answer before the first. *)
Fixpoint rises (prev : bool) (l : list bool) : nat :=
  match l with
  | [] => 0
  | b :: l' => (if negb prev && b then 1 else 0) + rises b l'
  end.

Fixpoint falls (prev : bool) (l : list bool) : nat :=
  match l with
  | [] => 0
  | b :: l' => (if prev && negb b then 1 else 0) + falls b l'
  end.

(** The pids of the entries of [found] for [cmd], in order. *)
Fixpoint pids_for (cmd : string) (found : list (string * Z * string))
  : list Z :=
  match found with
  | [] => []
  | (c, pid, _) :: found' =>
      if String.eqb c cmd then pid :: pids_for cmd found'
      else pids_for cmd found'
  end.

(** Some entry of [found] is a defunct entry for [cmd]. *)
Fixpoint has_defunct (cmd : string) (found : list (string * Z * string))
  : bool :=
  match found with
  | [] => false
  | (c, _, details) :: found' =>
      String.eqb c cmd && Sentry.defunct details || has_defunct cmd found'
  end.

(** [d[cmd]], the empty list when [cmd] is no key. *)
Definition listed (cmd : string) (d : Dict.t) : list Z :=
  match Dict.lookup cmd d with
  | Some pids => pids
  | None => []
  end.

(** The handles are handles of configured commands. *)
Definition handles_configured (self : Sentry.t) : Prop :=
  forall cmd, is_Some (Sentry.processes self !! cmd) ->
              In cmd (Sentry.command_list self).

(** A command has at most one handle. *)
Definition one_handle_each (self : Sentry.t) : Prop :=
  forall cmd h1 h2,
    Sentry.processes self !! cmd = Some h1 ->
    Sentry.processes self !! cmd = Some h2 -> h1 = h2.

(** What the three phases of a turn leave in the trace: the enumeration
    lists and waits, the killing prints its lines and kills, the
    launching prints its lines and spawns. *)
Definition enum_event (ev : event) : Prop :=
  match ev with
  | Ps _ | Wait _ _ => True
  | _ => False
  end.

Definition wait_event (ev : event) : Prop :=
  match ev with
  | Wait _ _ => True
  | _ => False
  end.

Definition kill_event (ev : event) : Prop :=
  match ev with
  | Kill _ _ => True
  | Print line => Text.starts_with "Killing " line = true
  | _ => False
  end.

Definition launch_event (ev : event) : Prop :=
  match ev with
  | Spawn _ _ => True
  | Print line => Text.starts_with "Starting " line = true
  | _ => False
  end.

(** What the loop keeps true of the object it started from: handles only
    for configured commands, one each, and the configuration as it was. *)
Definition invariant (self0 self : Sentry.t) : Prop :=
  handles_configured self
  /\ one_handle_each self
  /\ Sentry.command_list self = Sentry.command_list self0.

(** The run raised, and the last thing it did is the call recorded as
    [call e], which raised the error [e] the run passes on. *)
Definition raised_at {W A} (r : Sentry.outcome W A) (call : exn -> event)
  : Prop :=
  exists e tr, Sentry.res r = Raise e /\ Sentry.log r = tr ++ [call e].

Definition kill_failed {W A} (r : Sentry.outcome W A) (pid : Z) : Prop :=
  raised_at r (fun e => Kill pid (Raise e)).

Definition spawn_failed {W A} (r : Sentry.outcome W A) (cmd : string) : Prop :=
  raised_at r (fun e => Spawn cmd (Raise e)).

(** The commands of [cmds] that are no key of the enumeration. *)
Fixpoint missing (cmds running : list string) : list string :=
  match cmds with
  | [] => []
  | cmd :: cmds' =>
      if existsb (String.eqb cmd) running then missing cmds' running
      else cmd :: missing cmds' running
  end.

(** [self2] has the configuration of [self1], and its handles are handles
    of [self1] or handles of configured commands. *)
Definition within_config (self1 self2 : Sentry.t) : Prop :=
  Sentry.command_list self2 = Sentry.command_list self1
  /\ Sentry.poll_rate self2 = Sentry.poll_rate self1
  /\ forall cmd, is_Some (Sentry.processes self2 !! cmd) ->
                 is_Some (Sentry.processes self1 !! cmd)
                 \/ In cmd (Sentry.command_list self1).

(** The line a turn prints on an edge, none when there is no edge. *)
Definition edge_up (connected : bool) : list event :=
  if negb connected then [Print "Connected to VPN."] else [].

Definition edge_down (connected : bool) : list event :=
  if connected then [Print "VPN disconnected."] else [].

(** The calls of a run went through all of [planned] in order and the run
    returned, or they went up to the first one that raised. *)
Definition through_or_failure {A B} (returned : option B)
    (planned done : list A) (failed : A -> Prop) : Prop :=
  (is_Some returned /\ done = planned)
  \/ exists pre x post,
       planned = pre ++ x :: post /\ done = pre ++ [x] /\ failed x.


End Spec.

(** Finds an event, known to be in a part of a trace, in the whole trace. *)
Ltac find_event :=
  solve [ assumption
        | apply in_or_app; left; find_event
        | apply in_or_app; right; find_event
        | right; find_event ].

(** * Properties *)

(** ** Strings *)

Section TextFacts.
Import Text.



Lemma all_chars_app p (a b : string) :
  all_chars p (a +:+ b) = all_chars p a && all_chars p b.
Proof.
  induction a as [|x a IH]; simpl; [reflexivity|].
  rewrite IH. now rewrite andb_assoc.
Qed.

Lemma strip_prefix_spec (p s r : string) :
  strip_prefix p s = Some r <-> s = p +:+ r.
Proof.
  revert s. induction p as [|a p IH]; intros s; simpl.
  - split; [intros [= ->] | intros ->]; reflexivity.
  - destruct s as [|b s]; [split; discriminate|].
    destruct (Ascii.eqb_spec a b) as [->|Hne].
    + rewrite IH. split; [intros -> | intros [= ->]]; reflexivity.
    + split; [discriminate | intros [= E _]; congruence].
Qed.

(** [span] cuts its input in two, the first part all in the class, the
    second not starting in it; and that cut is the only such one. *)
Lemma span_spec p (s a b : string) :
  span p s = (a, b) <-> s = a +:+ b /\ all_chars p a = true /\ stops p b.
Proof.
  revert a b. induction s as [|c s IH]; intros a b; simpl.
  - split.
    + intros [= <- <-]. simpl. auto.
    + intros (E & _ & _). destruct a; [|discriminate].
      simpl in E. now subst b.
  - destruct (p c) eqn:Hc.
    + destruct (span p s) as [a1 b1] eqn:Es.
      destruct (IH a1 b1) as [IH1 _]. specialize (IH1 eq_refl).
      destruct IH1 as (E1 & A1 & S1). split.
      * intros [= <- <-]. simpl. rewrite Hc, A1. subst s. auto.
      * intros (E & A & St). destruct a as [|x a].
        -- simpl in E. subst b. simpl in St. congruence.
        -- simpl in E. injection E as -> E. simpl in A.
           apply andb_prop in A as [_ A].
           destruct (IH a b) as [_ IH2].
           specialize (IH2 (conj E (conj A St))). congruence.
    + split.
      * intros [= <- <-]. simpl. auto.
      * intros (E & A & St). destruct a as [|x a].
        -- simpl in E. now subst b.
        -- simpl in E. injection E as -> E. simpl in A.
           rewrite Hc in A. discriminate.
Qed.

Lemma digit_not_space c : is_digit c = true -> is_space c = false.
Proof.
  unfold is_digit, is_space. intros H.
  apply andb_prop in H as [H1 H2].
  apply N.leb_le in H1. apply N.leb_le in H2.
  repeat match goal with
         | |- context [(?a <=? ?b)%N] =>
             destruct (N.leb_spec a b); try lia
         | |- context [(?a =? ?b)%N] =>
             destruct (N.eqb_spec a b); try lia
         end; reflexivity.
Qed.

(** The pieces of a split hold no separator. *)
Lemma split_pieces (s line : string) :
  In line (split newline s) -> all_chars is_dot line = true.
Proof.
  revert line. induction s as [|c s IH]; intros line; simpl.
  - intros [<- | []]. reflexivity.
  - destruct (Ascii.eqb c newline) eqn:Hc.
    + intros [<- | H]; [reflexivity | now apply IH].
    + destruct (split newline s) as [|piece pieces] eqn:Es.
      * intros [<- | []]. simpl. unfold is_dot. now rewrite Hc.
      * intros [<- | H].
        -- simpl. unfold is_dot at 1. rewrite Hc. simpl.
           apply IH. now left.
        -- apply IH. now right.
Qed.

(** A line matches the listing pattern exactly when it has the shape of
    the specification and its details hold no newline. *)
Lemma fullmatch_ps_spec (line digits details : string) :
  fullmatch_ps line = Some (digits, details)
  <-> Spec.ps_line line digits details /\ all_chars is_dot details = true.
Proof.
  unfold fullmatch_ps, Spec.ps_line.
  destruct (span is_space line) as [ws s1] eqn:E1.
  destruct (span is_digit s1) as [ds s2] eqn:E2.
  apply span_spec in E1 as (L1 & A1 & S1).
  apply span_spec in E2 as (L2 & A2 & S2).
  split.
  - intros H. destruct ds as [|d ds]; [discriminate|].
    destruct s2 as [|sp rest]; [discriminate|].
    destruct (Ascii.eqb_spec sp " ") as [->|]; [|discriminate].
    destruct (all_chars is_dot rest) eqn:Hd; [|discriminate].
    simpl in H. injection H as <- <-.
    split; [|assumption]. exists ws. subst line s1.
    repeat split; try assumption. discriminate.
  - intros [(ws' & L & A & Hne & D) Hdot].
    assert (Hws : span is_space line = (ws', digits +:+ " " +:+ details)).
    { apply span_spec. repeat split; try assumption.
      destruct digits as [|d ds']; [congruence|]. simpl.
      simpl in D. apply andb_prop in D as [D _].
      now apply digit_not_space. }
    assert (Hws0 : span is_space line = (ws, s1))
      by (apply span_spec; auto).
    rewrite Hws in Hws0. injection Hws0 as <- <-.
    assert (Hds : span is_digit (digits +:+ " " +:+ details)
                  = (digits, " " +:+ details)).
    { apply span_spec. repeat split; try assumption. }
    assert (Hds0 : span is_digit (digits +:+ " " +:+ details) = (ds, s2))
      by (apply span_spec; auto).
    rewrite Hds in Hds0. injection Hds0 as <- <-.
    destruct digits as [|d ds']; [congruence|]. simpl.
    now rewrite Hdot.
Qed.

End TextFacts.

(** ** The status pattern *)

Section StatusFacts.
Import Text.

Lemma match_status_here_spec (s w : string) :
  match_status_here s = Some w
  <-> exists post, Spec.status_field s EmptyString w post.
Proof.
  unfold match_status_here, Spec.status_field. split.
  - destruct (strip_prefix "Status: " s) as [rest|] eqn:Ep; [|discriminate].
    apply strip_prefix_spec in Ep.
    destruct (span is_word rest) as [a b] eqn:Es.
    apply span_spec in Es as (Er & Ha & Hb). simpl.
    destruct a as [|c a]; [discriminate|]. intros [= <-].
    exists b. subst s rest. repeat split; try assumption. discriminate.
  - intros (post & E & Hne & Hw & He). simpl in E.
    assert (Ep : strip_prefix "Status: " s = Some (w +:+ post))
      by (apply strip_prefix_spec; exact E).
    rewrite Ep.
    assert (Es : span is_word (w +:+ post) = (w, post))
      by (apply span_spec; auto).
    rewrite Es. simpl. destruct w; [congruence | reflexivity].
Qed.

Lemma status_field_cons c (s pre w post : string) :
  Spec.status_field (String c s) (String c pre) w post
  <-> Spec.status_field s pre w post.
Proof.
  unfold Spec.status_field. simpl. split.
  - intros ([= E] & H). auto.
  - intros (-> & H). auto.
Qed.

Lemma status_field_head (s pre w post : string) :
  Spec.status_field s pre w post ->
  pre = EmptyString
  \/ exists c s' pre', s = String c s' /\ pre = String c pre'.
Proof.
  intros (E & _). destruct pre as [|c pre]; [now left|].
  right. simpl in E. eauto.
Qed.

(** [re.search] returns the word of the leftmost status field. *)
Lemma search_status_spec (s w : string) :
  search_status s = Some w
  <-> exists pre post, Spec.status_field s pre w post /\ Spec.leftmost s pre.
Proof.
  induction s as [|c s IH].
  - simpl. destruct (match_status_here EmptyString) as [w0|] eqn:Em.
    + discriminate Em.
    + split; [discriminate|].
      intros (pre & post & (E & _) & _).
      destruct pre; discriminate E.
  - cbn [search_status].
    destruct (match_status_here (String c s)) as [w0|] eqn:Em.
    + split.
      * intros [= <-]. apply match_status_here_spec in Em as [post F].
        exists EmptyString, post. split; [exact F|].
        intros pre' w' post' _. simpl. lia.
      * intros (pre & post & F & L).
        pose proof Em as Em'.
        apply match_status_here_spec in Em' as [post0 F0].
        specialize (L _ _ _ F0). simpl in L.
        destruct pre; [|simpl in L; lia].
        assert (Hm : match_status_here (String c s) = Some w)
          by (apply match_status_here_spec; eauto).
        congruence.
    + rewrite IH. split.
      * intros (pre & post & F & L). exists (String c pre), post. split.
        -- exact (proj2 (status_field_cons _ _ _ _ _) F).
        -- intros pre' w' post' F'.
           destruct (status_field_head _ _ _ _ F')
             as [-> | (c' & s' & pre1 & [= <- <-] & ->)].
           ++ assert (Hm : match_status_here (String c s) = Some w')
                by (apply match_status_here_spec; eauto).
              congruence.
           ++ apply (proj1 (status_field_cons _ _ _ _ _)) in F'.
              specialize (L _ _ _ F').
              simpl. lia.
      * intros (pre & post & F & L).
        destruct (status_field_head _ _ _ _ F)
          as [-> | (c' & s' & pre1 & [= <- <-] & ->)].
        -- assert (Hm : match_status_here (String c s) = Some w)
             by (apply match_status_here_spec; eauto).
           congruence.
        -- exists pre1, post.
           split; [exact (proj1 (status_field_cons _ _ _ _ _) F)|].
           intros pre' w' post' F'.
           assert (F2 : Spec.status_field (String c s) (String c pre') w' post')
             by exact (proj2 (status_field_cons _ _ _ _ _) F').
           specialize (L _ _ _ F2). simpl in L. lia.
Qed.

Lemma check_output_search (out : string) :
  Sentry.check_output out = true <-> search_status out = Some "Connected".
Proof.
  unfold Sentry.check_output.
  destruct (search_status out) as [w|]; cbn [existsb].
  - rewrite orb_false_r. rewrite String.eqb_eq.
    split; [intros <- | intros [= <-]]; reflexivity.
  - split; discriminate.
Qed.

End StatusFacts.

(** C6.  [check_vpn] answers true exactly when the output of the status
    command holds a status field whose word is Connected, the field being
    the leftmost one of the output, which is the one the search captures;
    so an answer of true always comes with such a field in the output.
    Any other captured word and any output without a field, the empty one
    among them, give false; the only error [check_vpn] passes on is one
    raised by the status call itself. *)
Theorem check_vpn_connected_iff :
  (forall out,
      Sentry.check_output out = true
      <-> exists pre post,
            Spec.status_field out pre "Connected" post /\ Spec.leftmost out pre)
  /\ (forall out,
        Sentry.check_output out = true ->
        exists pre post, Spec.status_field out pre "Connected" post)
  /\ (forall out pre w post,
        Spec.status_field out pre w post -> Spec.leftmost out pre ->
        w <> "Connected" -> Sentry.check_output out = false)
  /\ (forall out,
        (forall pre w post, ~ Spec.status_field out pre w post) ->
        Sentry.check_output out = false)
  /\ Sentry.check_output "Status: Connected" = true
  /\ Sentry.check_output "Status: Disconnected" = false
  /\ Sentry.check_output EmptyString = false
  /\ (forall (W : Type) (os : Sys.OS W) (self : Sentry.t) (w : W),
         Sentry.res (Sentry.check_vpn os self w)
         = match fst (Sys.nordvpn_status os w) with
           | Sys.Return out => Sys.Return (Sentry.check_output out)
           | Sys.Raise e => Sys.Raise e
           end).
Proof.
  assert (Hiff : forall out,
             Sentry.check_output out = true
             <-> exists pre post,
                   Spec.status_field out pre "Connected" post
                   /\ Spec.leftmost out pre).
  { intros out. rewrite check_output_search. apply search_status_spec. }
  split; [exact Hiff|]. split; [|split; [|split]].
  - intros out H. apply Hiff in H as (pre & post & F & _). eauto.
  - intros out pre w post F L Hw.
    destruct (Sentry.check_output out) eqn:E; [|reflexivity].
    apply check_output_search in E.
    assert (E2 : Text.search_status out = Some w)
      by (apply search_status_spec; eauto).
    congruence.
  - intros out Hno.
    destruct (Sentry.check_output out) eqn:E; [|reflexivity].
    apply Hiff in E as (pre & post & F & _). destruct (Hno _ _ _ F).
  - split; [reflexivity|]. split; [reflexivity|]. split; [reflexivity|].
    intros W os self w.
    unfold Sentry.check_vpn, Sentry.bind, Sentry.sys.
    destruct (Sys.nordvpn_status os w) as [[out|e] w1]; reflexivity.
Qed.

(** ** Runs of the methods *)

Section RunFacts.
Import Sys Sentry.
Context {W : Type} (os : OS W).

Lemma bind_return {A B} (m : M W A) (k : A -> M W B) self w a :
  res (m self w) = Return a ->
  bind m k self w
  = let r2 := k a (self' (m self w)) (world' (m self w)) in
    Run (res r2) (self' r2) (world' r2) (log (m self w) ++ log r2).
Proof. intros E. unfold bind. now rewrite E. Qed.

Lemma bind_raise {A B} (m : M W A) (k : A -> M W B) self w e :
  res (m self w) = Raise e ->
  bind m k self w
  = Run (Raise e) (self' (m self w)) (world' (m self w)) (log (m self w)).
Proof. intros E. unfold bind. now rewrite E. Qed.

Lemma kills_app a b : kills (a ++ b) = kills a ++ kills b.
Proof.
  induction a as [|[] a IH]; simpl; try assumption;
    [reflexivity | now rewrite IH].
Qed.

Lemma spawns_app a b : spawns (a ++ b) = spawns a ++ spawns b.
Proof.
  induction a as [|[] a IH]; simpl; try assumption;
    [reflexivity | now rewrite IH].
Qed.

Lemma waits_app a b : waits (a ++ b) = waits a ++ waits b.
Proof.
  induction a as [|[] a IH]; simpl; try assumption;
    [reflexivity | now rewrite IH].
Qed.

Lemma listings_app a b : listings (a ++ b) = listings a + listings b.
Proof.
  induction a as [|[] a IH]; simpl; try assumption;
    [reflexivity | now rewrite IH].
Qed.

Lemma printed_app line a b :
  printed line (a ++ b) = printed line a + printed line b.
Proof.
  induction a as [|[] a IH]; simpl; try assumption; [reflexivity|].
  rewrite IH. lia.
Qed.

Lemma probes_app a b : Spec.probes (a ++ b) = Spec.probes a ++ Spec.probes b.
Proof.
  induction a as [|ev a IH]; [reflexivity|].
  destruct ev as [| r | | | | | |]; simpl; try assumption.
  destruct r; simpl; [now rewrite IH | assumption].
Qed.



(** *** What each phase leaves out of the trace *)

Lemma enum_quiet tr :
  Forall Spec.enum_event tr ->
  kills tr = [] /\ spawns tr = [] /\ Spec.probes tr = []
  /\ forall line, printed line tr = 0.
Proof.
  induction 1 as [|ev tr Hev _ (K & S & P & L)]; [now repeat split|].
  destruct ev; try contradiction; simpl; auto.
Qed.

Lemma starts_differ p (a b : string) :
  Text.starts_with p a = true -> Text.starts_with p b = false ->
  String.eqb a b = false.
Proof.
  intros Ha Hb. apply String.eqb_neq. intros ->. congruence.
Qed.

Lemma kill_quiet tr :
  Forall Spec.kill_event tr ->
  spawns tr = [] /\ waits tr = [] /\ listings tr = 0 /\ Spec.probes tr = []
  /\ forall line, Text.starts_with "Killing " line = false ->
                  printed line tr = 0.
Proof.
  induction 1 as [|ev tr Hev _ (S & Wt & Ls & P & L)]; [now repeat split|].
  destruct ev; try contradiction; simpl; repeat split; auto.
  intros l Hl. rewrite (starts_differ _ _ _ Hev Hl). now apply L.
Qed.

Lemma launch_quiet tr :
  Forall Spec.launch_event tr ->
  kills tr = [] /\ waits tr = [] /\ listings tr = 0 /\ Spec.probes tr = []
  /\ forall line, Text.starts_with "Starting " line = false ->
                  printed line tr = 0.
Proof.
  induction 1 as [|ev tr Hev _ (S & Wt & Ls & P & L)]; [now repeat split|].
  destruct ev; try contradiction; simpl; repeat split; auto.
  intros l Hl. rewrite (starts_differ _ _ _ Hev Hl). now apply L.
Qed.

(** *** [kill_processes] after the enumeration *)

Lemma sys_run {A} (call : W -> result A * W) (ev : result A -> event) self w :
  sys call ev self w
  = Run (fst (call w)) self (snd (call w)) [ev (fst (call w))].
Proof. unfold sys. now destruct (call w). Qed.

Lemma kill_pids_run pids self w :
  let r := kill_pids os pids self w in
  self' r = self
  /\ Forall Spec.kill_event (log r)
  /\ Spec.through_or_failure (returned r) pids (kills (log r))
       (Spec.kill_failed r).
Proof.
  revert w. induction pids as [|pid pids IH]; intros w; cbn [kill_pids].
  - simpl. repeat split; [constructor | left; split; eauto].
  - set (m := sys (os_kill os pid) (Kill pid)).
    pose proof (sys_run (os_kill os pid) (Kill pid) self w) as Hm.
    fold m in Hm.
    destruct (fst (os_kill os pid w)) as [[]|e] eqn:Ek.
    + assert (E : res (m self w) = Return tt) by now rewrite Hm.
      rewrite (bind_return _ _ _ _ _ E). rewrite Hm. cbn zeta. simpl.
      destruct (IH (snd (os_kill os pid w))) as (S1 & F1 & U1).
      split; [assumption|]. split.
      * constructor; [exact I | assumption].
      * destruct U1 as [[R1 U1] | (pre & x & post & P1 & D1 & Fl)].
        -- left. split; [exact R1 | now rewrite U1].
        -- right. exists (pid :: pre), x, post.
           split; [simpl; congruence|]. split; [simpl; congruence|].
           destruct Fl as (e & tr & E2 & L2).
           exists e, (Kill pid (Return tt) :: tr). simpl.
           split; [assumption | now rewrite L2].
    + assert (E : res (m self w) = Raise e) by now rewrite Hm.
      rewrite (bind_raise _ _ _ _ _ E). rewrite Hm. simpl.
      split; [reflexivity|]. split.
      * constructor; [exact I | constructor].
      * right. exists [], pid, pids. repeat split.
        exists e, []. auto.
Qed.

Lemma kill_each_run d self w :
  let r := kill_each os d self w in
  self' r = self
  /\ Forall Spec.kill_event (log r)
  /\ Spec.through_or_failure (returned r) (Dict.all_pids d) (kills (log r))
       (Spec.kill_failed r).
Proof.
  revert w. induction d as [|[cmd pids] d IH]; intros w; cbn [kill_each].
  - simpl. repeat split; [constructor | left; split; eauto].
  - set (line := "Killing " +:+ cmd +:+ Text.repr_pids pids +:+ "...").
    rewrite (bind_return (print line) _ self w tt eq_refl).
    cbn zeta. cbn [print res self' world' log].
    destruct (kill_pids_run pids self w) as (S1 & F1 & U1).
    set (r1 := kill_pids os pids self w) in *.
    assert (Hline : Spec.kill_event (Print line)) by reflexivity.
    unfold Dict.all_pids. cbn [map concat snd]. fold (Dict.all_pids d).
    destruct (res r1) as [[]|e] eqn:E1.
    + rewrite (bind_return _ _ _ _ _ E1). cbn zeta.
      cbn [res self' world' log app]. fold r1. rewrite S1.
      destruct (IH (world' r1)) as (S2 & F2 & U2).
      set (r2 := kill_each os d self (world' r1)) in *.
      split; [assumption|]. split.
      * constructor; [assumption|]. apply Forall_app. auto.
      * cbn [kills app]. rewrite kills_app.
        destruct U1 as [[_ U1] | (pre & x & post & _ & _ & (e & tr & E & _))];
          [|congruence].
        rewrite U1.
        destruct U2 as [[R2 U2] | (pre & x & post & P2 & D2 & (e & tr & E2 & L2))].
        -- left. split; [exact R2 | now rewrite U2].
        -- right. exists (pids ++ pre), x, post. rewrite P2, D2.
           rewrite <- !app_assoc. repeat split.
           exists e, (Print line :: log r1 ++ tr). cbn [res log].
           split; [assumption|]. rewrite L2.
           now rewrite app_comm_cons, app_assoc.
    + rewrite (bind_raise _ _ _ _ _ E1). cbn [res self' world' log app].
      fold r1. split; [assumption|]. split.
      * constructor; assumption.
      * cbn [kills app].
        destruct U1 as [[R1 _] | (pre & x & post & P1 & D1 & (e1 & tr & E & L1))].
        -- unfold returned in R1. rewrite E1 in R1. now destruct R1.
        -- right. exists pre, x, (post ++ Dict.all_pids d).
           rewrite P1, D1. rewrite <- app_assoc. repeat split.
           exists e1, (Print line :: tr). cbn [res log].
           split; [congruence | now rewrite L1].
Qed.

(** *** The enumeration *)

Lemma listed_append cmd c pid d :
  Spec.listed cmd (Dict.append c pid d)
  = Spec.listed cmd d ++ (if String.eqb c cmd then [pid] else []).
Proof.
  unfold Spec.listed. induction d as [|[k v] d IH]; cbn [Dict.append].
  - cbn [Dict.lookup]. now destruct (String.eqb c cmd).
  - destruct (String.eqb_spec k c) as [->|Hkc]; cbn [Dict.lookup].
    + destruct (String.eqb c cmd); [reflexivity | now rewrite app_nil_r].
    + destruct (String.eqb_spec k cmd) as [->|Hk].
      * destruct (String.eqb_spec c cmd) as [->|]; [congruence|].
        now rewrite app_nil_r.
      * exact IH.
Qed.

(** The second pass only lists and waits, leaves the configuration
    alone, only removes handles, and waits on handles it held. *)
Lemma reap_or_list_run found acc self w :
  let r := reap_or_list os found acc self w in
  Forall Spec.wait_event (log r)
  /\ command_list (self' r) = command_list self
  /\ poll_rate (self' r) = poll_rate self
  /\ (forall cmd h, processes (self' r) !! cmd = Some h ->
                    processes self !! cmd = Some h)
  /\ (forall h, In h (waits (log r)) ->
                exists cmd, processes self !! cmd = Some h).
Proof.
  revert acc self w.
  induction found as [|[[cmd pid] details] found IH]; intros acc self w;
    cbn [reap_or_list].
  - simpl. repeat split; auto. intros h [].
  - rewrite (bind_return (get processes) _ self w (processes self) eq_refl).
    cbn zeta. cbn [get res self' world' log app].
    destruct (if defunct details then processes self !! cmd else None)
      as [h|] eqn:Eh.
    + assert (Hh : processes self !! cmd = Some h)
        by (destruct (defunct details); [assumption | discriminate]).
      set (m := sys (popen_wait os h) (Wait h)).
      pose proof (sys_run (popen_wait os h) (Wait h) self w) as Hm.
      fold m in Hm.
      destruct (fst (popen_wait os h w)) as [[]|e] eqn:Ew.
      * assert (E : res (m self w) = Return tt) by now rewrite Hm.
        rewrite (bind_return _ _ _ _ _ E). rewrite Hm. cbn zeta.
        cbn [res self' world' log app].
        set (self1 := with_processes self (delete cmd (processes self))).
        rewrite (bind_return (set_processes _) _ self _ tt eq_refl).
        cbn zeta. cbn [set_processes res self' world' log app]. fold self1.
        destruct (IH acc self1 (snd (popen_wait os h w)))
          as (F & C & P & Sh & Wt).
        set (r := reap_or_list os found acc self1 _) in *.
        split; [constructor; [exact I | assumption]|].
        split; [exact C|]. split; [exact P|]. split.
        -- intros c h' Hc. apply Sh in Hc. unfold self1 in Hc. simpl in Hc.
           apply lookup_delete_Some in Hc. tauto.
        -- cbn [waits]. intros h' [<- | Hin]; [eauto|].
           apply Wt in Hin as [c Hc]. unfold self1 in Hc. simpl in Hc.
           apply lookup_delete_Some in Hc. exists c. tauto.
      * assert (E : res (m self w) = Raise e) by now rewrite Hm.
        rewrite (bind_raise _ _ _ _ _ E). rewrite Hm.
        cbn [res self' world' log app waits].
        split; [constructor; [exact I | constructor]|].
        repeat split; auto. intros h' [<- | []]. eauto.
    + apply IH.
Qed.

(** A command without a handle has every one of its entries listed. *)
Lemma reap_or_list_no_handle cmd found acc self w d :
  processes self !! cmd = None ->
  res (reap_or_list os found acc self w) = Return d ->
  Spec.listed cmd d = Spec.listed cmd acc ++ Spec.pids_for cmd found.
Proof.
  revert acc self w.
  induction found as [|[[c pid] details] found IH]; intros acc self w Hn;
    cbn [reap_or_list Spec.pids_for].
  - simpl. intros [= ->]. now rewrite app_nil_r.
  - rewrite (bind_return (get processes) _ self w (processes self) eq_refl).
    cbn zeta. cbn [get res self' world' log app].
    destruct (if defunct details then processes self !! c else None)
      as [h|] eqn:Eh.
    + assert (Hh : processes self !! c = Some h)
        by (destruct (defunct details); [assumption | discriminate]).
      assert (Hc : String.eqb c cmd = false)
        by (apply String.eqb_neq; intros ->; congruence).
      rewrite Hc.
      set (m := sys (popen_wait os h) (Wait h)).
      pose proof (sys_run (popen_wait os h) (Wait h) self w) as Hm.
      fold m in Hm.
      destruct (fst (popen_wait os h w)) as [[]|e] eqn:Ew.
      * assert (E : res (m self w) = Return tt) by now rewrite Hm.
        rewrite (bind_return _ _ _ _ _ E). rewrite Hm. cbn zeta.
        cbn [res self' world' log app].
        rewrite (bind_return (set_processes _) _ self _ tt eq_refl).
        cbn zeta. cbn [set_processes res self' world' log app].
        apply IH. simpl. apply lookup_delete_None. now right.
      * assert (E : res (m self w) = Raise e) by now rewrite Hm.
        rewrite (bind_raise _ _ _ _ _ E). discriminate.
    + intros Hr. rewrite (IH _ _ _ Hn Hr), listed_append.
      rewrite <- app_assoc. now destruct (String.eqb c cmd).
Qed.

(** The first defunct entry of a command with a handle has the handle
    waited for and popped and is not listed; the other entries of the
    command, before and after it, are. *)
Lemma reap_or_list_first_defunct cmd h pid details pre post acc self w d :
  processes self !! cmd = Some h ->
  Spec.has_defunct cmd pre = false ->
  defunct details = true ->
  let r := reap_or_list os (pre ++ (cmd, pid, details) :: post) acc self w in
  res r = Return d ->
  processes (self' r) !! cmd = None
  /\ In (Wait h (Return tt)) (log r)
  /\ Spec.listed cmd d
     = Spec.listed cmd acc ++ Spec.pids_for cmd pre ++ Spec.pids_for cmd post.
Proof.
  intros Hh Hpre Hd. revert acc self w Hh Hpre.
  induction pre as [|[[c p] dt] pre IH]; intros acc self w Hh Hpre;
    cbn [app reap_or_list Spec.pids_for].
  - rewrite (bind_return (get processes) _ self w (processes self) eq_refl).
    cbn zeta. cbn [get res self' world' log app].
    rewrite Hd, Hh.
    set (m := sys (popen_wait os h) (Wait h)).
    pose proof (sys_run (popen_wait os h) (Wait h) self w) as Hm.
    fold m in Hm.
    destruct (fst (popen_wait os h w)) as [[]|e] eqn:Ew.
    + assert (E : res (m self w) = Return tt) by now rewrite Hm.
      rewrite (bind_return _ _ _ _ _ E). rewrite Hm. cbn zeta.
      cbn [res self' world' log app].
      set (self1 := with_processes self (delete cmd (processes self))).
      rewrite (bind_return (set_processes _) _ self _ tt eq_refl).
      cbn zeta. cbn [set_processes res self' world' log app]. fold self1.
      assert (Hn : processes self1 !! cmd = None)
        by (simpl; apply lookup_delete_None; now left).
      intros Hr. split; [|split].
      * destruct (reap_or_list_run post acc self1 (snd (popen_wait os h w)))
          as (_ & _ & _ & Sh & _).
        destruct (processes (self' _) !! cmd) as [h'|] eqn:E'; [|reflexivity].
        apply Sh in E'. congruence.
      * now left.
      * exact (reap_or_list_no_handle _ _ _ _ _ _ Hn Hr).
    + assert (E : res (m self w) = Raise e) by now rewrite Hm.
      rewrite (bind_raise _ _ _ _ _ E). discriminate.
  - cbn [Spec.has_defunct] in Hpre. apply orb_false_elim in Hpre as [Hc Hpre].
    rewrite (bind_return (get processes) _ self w (processes self) eq_refl).
    cbn zeta. cbn [get res self' world' log app].
    destruct (if defunct dt then processes self !! c else None)
      as [h0|] eqn:Eh.
    + assert (Hdt : defunct dt = true)
        by (destruct (defunct dt); [reflexivity | discriminate]).
      rewrite Hdt, andb_true_r in Hc. rewrite Hc.
      apply String.eqb_neq in Hc.
      set (m := sys (popen_wait os h0) (Wait h0)).
      pose proof (sys_run (popen_wait os h0) (Wait h0) self w) as Hm.
      fold m in Hm.
      destruct (fst (popen_wait os h0 w)) as [[]|e] eqn:Ew.
      * assert (E : res (m self w) = Return tt) by now rewrite Hm.
        rewrite (bind_return _ _ _ _ _ E). rewrite Hm. cbn zeta.
        cbn [res self' world' log app].
        set (self1 := with_processes self (delete c (processes self))).
        rewrite (bind_return (set_processes _) _ self _ tt eq_refl).
        cbn zeta. cbn [set_processes res self' world' log app]. fold self1.
        assert (Hh1 : processes self1 !! cmd = Some h)
          by (simpl; rewrite lookup_delete_ne; auto).
        intros Hr.
        destruct (IH acc self1 (snd (popen_wait os h0 w)) Hh1 Hpre Hr)
          as (A1 & A2 & A3).
        split; [exact A1|]. split; [now right | exact A3].
      * assert (E : res (m self w) = Raise e) by now rewrite Hm.
        rewrite (bind_raise _ _ _ _ _ E). discriminate.
    + intros Hr.
      destruct (IH (Dict.append c p acc) self w Hh Hpre Hr) as (A1 & A2 & A3).
      split; [exact A1|]. split; [exact A2|].
      rewrite A3, listed_append, <- !app_assoc.
      now destruct (String.eqb c cmd).
Qed.

Lemma parse_ps_run self w :
  parse_ps os self w
  = match fst (ps_x os w) with
    | Return out =>
        let r := reap_or_list os (processes_found (command_list self) out)
                   [] self (snd (ps_x os w)) in
        Run (res r) (self' r) (world' r) (Ps (Return out) :: log r)
    | Raise e => Run (Raise e) self (snd (ps_x os w)) [Ps (Raise e)]
    end.
Proof.
  unfold parse_ps.
  set (m := sys (ps_x os) Ps).
  pose proof (sys_run (ps_x os) Ps self w) as Hm. fold m in Hm.
  destruct (fst (ps_x os w)) as [out|e] eqn:Ep.
  - assert (E : res (m self w) = Return out) by now rewrite Hm.
    rewrite (bind_return _ _ _ _ _ E). rewrite Hm. cbn zeta.
    cbn [res self' world' log app].
    rewrite (bind_return (get command_list) _ self _ _ eq_refl).
    reflexivity.
  - assert (E : res (m self w) = Raise e) by now rewrite Hm.
    rewrite (bind_raise _ _ _ _ _ E). now rewrite Hm.
Qed.

Lemma wait_quiet tr :
  Forall Spec.wait_event tr -> Forall Spec.enum_event tr /\ listings tr = 0.
Proof.
  induction 1 as [|ev tr Hev _ (F & L)]; [now split|].
  destruct ev; try contradiction. simpl. split; [|exact L].
  constructor; [exact I | exact F].
Qed.

Lemma parse_ps_facts self w :
  let r := parse_ps os self w in
  Forall Spec.enum_event (log r)
  /\ listings (log r) = 1
  /\ command_list (self' r) = command_list self
  /\ poll_rate (self' r) = poll_rate self
  /\ (forall cmd h, processes (self' r) !! cmd = Some h ->
                    processes self !! cmd = Some h)
  /\ (forall h, In h (waits (log r)) ->
                exists cmd, processes self !! cmd = Some h).
Proof.
  cbn zeta. rewrite parse_ps_run.
  destruct (fst (ps_x os w)) as [out|e].
  - cbn zeta. cbn [res self' world' log waits listings].
    destruct (reap_or_list_run (processes_found (command_list self) out)
                [] self (snd (ps_x os w))) as (F & C & P & Sh & Wt).
    apply wait_quiet in F as [F L]. rewrite L.
    repeat split; auto. constructor; [exact I | assumption].
  - cbn [res self' world' log waits listings]. repeat split; auto.
    + constructor; [exact I | constructor].
    + intros h [].
Qed.

(** *** [run_commands] after the enumeration *)

Lemma start_missing_run cmds running self w :
  let r := start_missing os cmds running self w in
  Forall Spec.launch_event (log r)
  /\ command_list (self' r) = command_list self
  /\ poll_rate (self' r) = poll_rate self
  /\ (forall c, ~ In c cmds ->
                processes (self' r) !! c = processes self !! c)
  /\ (forall c, is_Some (processes (self' r) !! c) ->
                is_Some (processes self !! c) \/ In c cmds)
  /\ Spec.through_or_failure (returned r) (Spec.missing cmds running)
       (spawns (log r)) (Spec.spawn_failed r)
  /\ (NoDup cmds ->
      forall c h, In (Spawn c (Return h)) (log r) ->
                  processes (self' r) !! c = Some h).
Proof.
  revert self w. induction cmds as [|cmd cmds IH]; intros self w;
    cbn [start_missing Spec.missing].
  - simpl. repeat split; auto.
    + left. split; eauto.
    + intros _ c h [].
  - destruct (existsb (String.eqb cmd) running).
    + destruct (IH self w) as (F & C & P & Fr & Ks & T & Rc).
      repeat split; auto.
      * intros c Hc. apply Fr. intros Hin. apply Hc. now right.
      * intros c Hc. destruct (Ks c Hc); [now left | right; now right].
      * intros Hnd. inversion Hnd; subst. auto.
    + set (line := "Starting " +:+ cmd +:+ "...").
      assert (Hline : Spec.launch_event (Print line)) by reflexivity.
      rewrite (bind_return (print line) _ self w tt eq_refl).
      cbn zeta. cbn [print res self' world' log app].
      set (m := sys (popen os cmd) (Spawn cmd)).
      pose proof (sys_run (popen os cmd) (Spawn cmd) self w) as Hm.
      fold m in Hm.
      destruct (fst (popen os cmd w)) as [h|e] eqn:Ew.
      * assert (E : res (m self w) = Return h) by now rewrite Hm.
        rewrite (bind_return _ _ _ _ _ E). rewrite Hm. cbn zeta.
        cbn [res self' world' log app].
        rewrite (bind_return (get processes) _ self _ _ eq_refl).
        cbn zeta. cbn [get res self' world' log app].
        set (self1 := with_processes self (<[cmd := h]> (processes self))).
        rewrite (bind_return (set_processes _) _ self _ tt eq_refl).
        cbn zeta. cbn [set_processes res self' world' log app]. fold self1.
        destruct (IH self1 (snd (popen os cmd w)))
          as (F & C & P & Fr & Ks & T & Rc).
        set (r := start_missing os cmds running self1 _) in *.
        split; [constructor; [exact Hline|]; constructor; [exact I | exact F]|].
        split; [exact C|]. split; [exact P|]. split; [|split; [|split]].
        -- intros c Hc. rewrite Fr by (intros Hin; apply Hc; now right).
           simpl. apply lookup_insert_ne. intros ->. apply Hc. now left.
        -- intros c Hc. destruct (String.eqb_spec cmd c) as [->|Hne].
           ++ right. now left.
           ++ destruct (Ks c Hc) as [Hs | Hin]; [|right; now right].
              left. simpl in Hs. now rewrite lookup_insert_ne in Hs.
        -- cbn [spawns].
           destruct T as [[R T] | (pre & x & post & P1 & D1 & (e & tr & E1 & L1))].
           ++ left. split; [exact R | now rewrite T].
           ++ right. exists (cmd :: pre), x, post.
              split; [simpl; congruence|]. split; [simpl; congruence|].
              exists e, (Print line :: Spawn cmd (Return h) :: tr).
              cbn [res log]. split; [assumption | now rewrite L1].
        -- intros Hnd c h' [Hev | [Hev | Hin]].
           ++ discriminate Hev.
           ++ injection Hev as <- <-. inversion Hnd; subst.
              rewrite Fr by (now rewrite <- list_elem_of_In).
              simpl. apply lookup_insert_eq.
           ++ inversion Hnd; subst. now apply Rc.
      * assert (E : res (m self w) = Raise e) by now rewrite Hm.
        rewrite (bind_raise _ _ _ _ _ E). rewrite Hm.
        cbn [res self' world' log app spawns].
        split; [constructor; [exact Hline|]; constructor; [exact I | constructor]|].
        repeat split; auto.
        -- right. exists [], cmd, (Spec.missing cmds running).
           repeat split. exists e, [Print line]. auto.
        -- intros _ c h' [Hev | [Hev | []]]; discriminate Hev.
Qed.

(** *** The methods, phase by phase *)

Lemma check_vpn_run self w :
  check_vpn os self w
  = Run (match fst (nordvpn_status os w) with
         | Return out => Return (check_output out)
         | Raise e => Raise e
         end)
        self (snd (nordvpn_status os w))
        [Status (fst (nordvpn_status os w))].
Proof.
  unfold check_vpn.
  set (m := sys (nordvpn_status os) Status).
  pose proof (sys_run (nordvpn_status os) Status self w) as Hm. fold m in Hm.
  destruct (fst (nordvpn_status os w)) as [out|e] eqn:Ep.
  - assert (E : res (m self w) = Return out) by now rewrite Hm.
    rewrite (bind_return _ _ _ _ _ E). now rewrite Hm.
  - assert (E : res (m self w) = Raise e) by now rewrite Hm.
    rewrite (bind_raise _ _ _ _ _ E). now rewrite Hm.
Qed.


Lemma kill_processes_run self w :
  kill_processes os self w
  = let r1 := parse_ps os self w in
    match res r1 with
    | Return d =>
        let r2 := kill_each os d (self' r1) (world' r1) in
        Run (res r2) (self' r2) (world' r2) (log r1 ++ log r2)
    | Raise e => Run (Raise e) (self' r1) (world' r1) (log r1)
    end.
Proof. reflexivity. Qed.

Lemma run_commands_run self w :
  run_commands os self w
  = let r1 := parse_ps os self w in
    match res r1 with
    | Return d =>
        let r2 := start_missing os (command_list (self' r1)) (Dict.keys d)
                    (self' r1) (world' r1) in
        Run (res r2) (self' r2) (world' r2) (log r1 ++ log r2)
    | Raise e => Run (Raise e) (self' r1) (world' r1) (log r1)
    end.
Proof.
  unfold run_commands. cbn zeta.
  destruct (res (parse_ps os self w)) as [d|e] eqn:E.
  - rewrite (bind_return _ _ _ _ _ E). cbn zeta.
    rewrite (bind_return (get command_list) _ _ _ _ eq_refl).
    cbn zeta. cbn [get res self' world' log app]. reflexivity.
  - now rewrite (bind_raise _ _ _ _ _ E).
Qed.

(** A turn whose probe raises. *)
Lemma loop_body_raise connected self w e :
  res (check_vpn os self w) = Raise e ->
  loop_body os connected self w
  = Run (Raise e) self (world' (check_vpn os self w))
        (log (check_vpn os self w)).
Proof.
  intros E. unfold loop_body. rewrite (bind_raise _ _ _ _ _ E).
  now rewrite check_vpn_run.
Qed.

(** A turn whose probe answers disconnected. *)
Lemma loop_body_down connected self w :
  res (check_vpn os self w) = Return false ->
  loop_body os connected self w
  = let r0 := check_vpn os self w in
    let r1 := kill_processes os self (world' r0) in
    match res r1 with
    | Return _ =>
        let r2 := connect_vpn os (self' r1) (world' r1) in
        Run (match res r2 with
             | Return _ => Return false
             | Raise e => Raise e
             end)
            (self' r2) (world' r2)
            (log r0 ++ Spec.edge_down connected ++ log r1
             ++ Print "Connecting to VPN..." :: log r2)
    | Raise e =>
        Run (Raise e) (self' r1) (world' r1)
            (log r0 ++ Spec.edge_down connected ++ log r1)
    end.
Proof.
  intros E. unfold loop_body. rewrite (bind_return _ _ _ _ _ E).
  cbn zeta. cbn iota.
  assert (S0 : self' (check_vpn os self w) = self)
    by now rewrite check_vpn_run.
  rewrite S0. set (w0 := world' (check_vpn os self w)).
  set (l0 := log (check_vpn os self w)).
  assert (Hedge :
    forall (k : bool -> M W bool),
      bind (if connected
            then bind (print "VPN disconnected.") (fun _ => ret false)
            else ret connected) k self w0
      = let r := k false self w0 in
        Run (res r) (self' r) (world' r) (Spec.edge_down connected ++ log r)).
  { intros k. destruct connected; unfold bind; simpl; reflexivity. }
  rewrite Hedge. cbn zeta. cbn [res self' world' log].
  destruct (res (kill_processes os self w0)) as [[]|e] eqn:Ek.
  - rewrite (bind_return _ _ _ _ _ Ek). cbn zeta.
    rewrite (bind_return (print _) _ _ _ tt eq_refl). cbn zeta.
    cbn [print res self' world' log app].
    set (r1 := kill_processes os self w0).
    destruct (res (connect_vpn os (self' r1) (world' r1))) as [[]|e] eqn:Ec.
    + rewrite (bind_return _ _ _ _ _ Ec). cbn zeta.
      cbn [ret res self' world' log]. rewrite app_nil_r. reflexivity.
    + rewrite (bind_raise _ _ _ _ _ Ec). cbn [res self' world' log].
      reflexivity.
  - rewrite (bind_raise _ _ _ _ _ Ek). reflexivity.
Qed.

(** A turn whose probe answers connected. *)
Lemma loop_body_up connected self w :
  res (check_vpn os self w) = Return true ->
  loop_body os connected self w
  = let r0 := check_vpn os self w in
    let r1 := run_commands os self (world' r0) in
    match res r1 with
    | Return _ =>
        let secs := poll_rate (self' r1) in
        let r2 := sys (sleep os secs) (Sleep secs) (self' r1) (world' r1) in
        Run (match res r2 with
             | Return _ => Return true
             | Raise e => Raise e
             end)
            (self' r2) (world' r2)
            (log r0 ++ Spec.edge_up connected ++ log r1 ++ log r2)
    | Raise e =>
        Run (Raise e) (self' r1) (world' r1)
            (log r0 ++ Spec.edge_up connected ++ log r1)
    end.
Proof.
  intros E. unfold loop_body. rewrite (bind_return _ _ _ _ _ E).
  cbn zeta. cbn iota.
  assert (S0 : self' (check_vpn os self w) = self)
    by now rewrite check_vpn_run.
  rewrite S0. set (w0 := world' (check_vpn os self w)).
  set (l0 := log (check_vpn os self w)).
  assert (Hedge :
    forall (k : bool -> M W bool),
      bind (if negb connected
            then bind (print "Connected to VPN.") (fun _ => ret true)
            else ret connected) k self w0
      = let r := k true self w0 in
        Run (res r) (self' r) (world' r) (Spec.edge_up connected ++ log r)).
  { intros k. destruct connected; unfold bind; simpl; reflexivity. }
  rewrite Hedge. cbn zeta. cbn [res self' world' log].
  destruct (res (run_commands os self w0)) as [[]|e] eqn:Ek.
  - rewrite (bind_return _ _ _ _ _ Ek). cbn zeta.
    rewrite (bind_return (get poll_rate) _ _ _ _ eq_refl). cbn zeta.
    cbn [get res self' world' log app].
    set (r1 := run_commands os self w0).
    set (secs := poll_rate (self' r1)).
    destruct (res (sys (sleep os secs) (Sleep secs) (self' r1) (world' r1)))
      as [[]|e] eqn:Ec.
    + rewrite (bind_return _ _ _ _ _ Ec). cbn zeta.
      cbn [ret res self' world' log]. rewrite app_nil_r. reflexivity.
    + rewrite (bind_raise _ _ _ _ _ Ec). cbn [res self' world' log].
      reflexivity.
  - rewrite (bind_raise _ _ _ _ _ Ek). reflexivity.
Qed.

Lemma within_config_refl self : Spec.within_config self self.
Proof. repeat split. intros cmd H. now left. Qed.

Lemma within_config_trans s1 s2 s3 :
  Spec.within_config s1 s2 -> Spec.within_config s2 s3 ->
  Spec.within_config s1 s3.
Proof.
  intros (C1 & P1 & K1) (C2 & P2 & K2). repeat split; try congruence.
  intros cmd H. destruct (K2 cmd H) as [H2 | H2].
  - exact (K1 cmd H2).
  - right. now rewrite <- C1.
Qed.

Lemma parse_ps_within self w :
  Spec.within_config self (self' (parse_ps os self w)).
Proof.
  destruct (parse_ps_facts self w) as (_ & _ & C & P & Sh & _).
  repeat split; try assumption.
  intros cmd [h Hh]. left. exists h. now apply Sh.
Qed.

(** [kill_processes]: one enumeration, then the killing. *)
Lemma kill_processes_quiet self w :
  let r := kill_processes os self w in
  spawns (log r) = [] /\ Spec.probes (log r) = [] /\ listings (log r) = 1
  /\ (forall line, Text.starts_with "Killing " line = false ->
                   printed line (log r) = 0)
  /\ Spec.within_config self (self' r).
Proof.
  cbn zeta. rewrite kill_processes_run. cbn zeta.
  destruct (parse_ps_facts self w) as (F & L & _).
  pose proof (parse_ps_within self w) as Wc.
  apply enum_quiet in F as (K1 & S1 & P1 & Pr1).
  set (r1 := parse_ps os self w) in *.
  destruct (res r1) as [d|e]; cbn [res self' world' log].
  - destruct (kill_each_run d (self' r1) (world' r1)) as (Se & F2 & _).
    apply kill_quiet in F2 as (S2 & _ & L2 & P2 & Pr2).
    rewrite spawns_app, probes_app, listings_app, S1, S2, P1, P2, L, L2, Se.
    do 3 (split; [reflexivity|]). split; [|exact Wc].
    intros line Hl. now rewrite printed_app, Pr1, Pr2.
  - do 3 (split; [assumption|]). split; [|exact Wc]. intros line _. apply Pr1.
Qed.


(** [run_commands]: one enumeration, then the launching. *)
Lemma run_commands_quiet self w :
  let r := run_commands os self w in
  kills (log r) = [] /\ Spec.probes (log r) = [] /\ listings (log r) = 1
  /\ (forall line, Text.starts_with "Starting " line = false ->
                   printed line (log r) = 0)
  /\ Spec.within_config self (self' r).
Proof.
  cbn zeta. rewrite run_commands_run. cbn zeta.
  destruct (parse_ps_facts self w) as (F & L & C & _).
  pose proof (parse_ps_within self w) as Wc.
  apply enum_quiet in F as (K1 & S1 & P1 & Pr1).
  set (r1 := parse_ps os self w) in *.
  destruct (res r1) as [d|e]; cbn [res self' world' log].
  - destruct (start_missing_run (command_list (self' r1)) (Dict.keys d)
                (self' r1) (world' r1)) as (F2 & C2 & Po2 & _ & Ks & _).
    apply launch_quiet in F2 as (K2 & _ & L2 & P2 & Pr2).
    rewrite kills_app, probes_app, listings_app, K1, K2, P1, P2, L, L2.
    do 3 (split; [reflexivity|]). split.
    + intros line Hl. now rewrite printed_app, Pr1, Pr2.
    + apply (within_config_trans _ _ _ Wc).
      split; [exact C2|]. split; [exact Po2|]. exact Ks.
  - do 3 (split; [assumption|]). split; [|exact Wc]. intros line _. apply Pr1.
Qed.

(** *** A failing kill *)

Lemma kill_in_kills pid o tr : In (Kill pid o) tr -> In pid (kills tr).
Proof.
  induction tr as [|ev tr IH]; [intros []|].
  intros [-> | H]; [now left|].
  destruct ev; simpl; auto.
Qed.

Lemma kill_pids_failure pids self w pid e :
  In (Kill pid (Raise e)) (log (kill_pids os pids self w)) ->
  res (kill_pids os pids self w) = Raise e
  /\ exists tr, log (kill_pids os pids self w) = tr ++ [Kill pid (Raise e)].
Proof.
  revert w. induction pids as [|pid0 pids IH]; intros w; cbn [kill_pids].
  - intros [].
  - set (m := sys (os_kill os pid0) (Kill pid0)).
    pose proof (sys_run (os_kill os pid0) (Kill pid0) self w) as Hm.
    fold m in Hm.
    destruct (fst (os_kill os pid0 w)) as [[]|e0] eqn:Ek.
    + assert (E : res (m self w) = Return tt) by now rewrite Hm.
      rewrite (bind_return _ _ _ _ _ E). rewrite Hm. cbn zeta.
      cbn [res self' world' log app].
      intros [Hev | Hin]; [discriminate Hev|].
      destruct (IH _ Hin) as (R & tr & L). split; [exact R|].
      exists (Kill pid0 (Return tt) :: tr). now rewrite L.
    + assert (E : res (m self w) = Raise e0) by now rewrite Hm.
      rewrite (bind_raise _ _ _ _ _ E). rewrite Hm.
      cbn [res self' world' log].
      intros [[= <- <-] | []]. split; [reflexivity | now exists []].
Qed.

Lemma kill_each_failure d self w pid e :
  In (Kill pid (Raise e)) (log (kill_each os d self w)) ->
  res (kill_each os d self w) = Raise e
  /\ exists tr, log (kill_each os d self w) = tr ++ [Kill pid (Raise e)].
Proof.
  revert w. induction d as [|[cmd pids] d IH]; intros w; cbn [kill_each].
  - intros [].
  - set (line := "Killing " +:+ cmd +:+ Text.repr_pids pids +:+ "...").
    rewrite (bind_return (print line) _ self w tt eq_refl).
    cbn zeta. cbn [print res self' world' log app].
    pose proof (kill_pids_failure pids self w pid e) as F1.
    destruct (kill_pids_run pids self w) as (S1 & _ & _).
    set (r1 := kill_pids os pids self w) in *.
    destruct (res r1) as [[]|e1] eqn:E1.
    + rewrite (bind_return _ _ _ _ _ E1). cbn zeta.
      cbn [res self' world' log]. fold r1. rewrite S1.
      intros [Hev | Hin]; [discriminate Hev|].
      apply in_app_or in Hin as [Hin | Hin].
      * destruct (F1 Hin) as [R _]. discriminate R.
      * destruct (IH _ Hin) as (R & tr & L).
        split; [exact R|]. exists (Print line :: log r1 ++ tr).
        rewrite L. now rewrite app_comm_cons, app_assoc.
    + rewrite (bind_raise _ _ _ _ _ E1). cbn [res self' world' log].
      fold r1. intros [Hev | Hin]; [discriminate Hev|].
      destruct (F1 Hin) as (R & tr & L). split; [exact R|].
      exists (Print line :: tr). now rewrite L.
Qed.

Lemma kill_processes_failure self w pid e :
  In (Kill pid (Raise e)) (log (kill_processes os self w)) ->
  res (kill_processes os self w) = Raise e
  /\ exists tr, log (kill_processes os self w) = tr ++ [Kill pid (Raise e)].
Proof.
  rewrite kill_processes_run. cbn zeta.
  destruct (parse_ps_facts self w) as (F & _).
  apply enum_quiet in F as (K1 & _).
  set (r1 := parse_ps os self w) in *.
  destruct (res r1) as [d|e1]; cbn [res self' world' log].
  - intros Hin. apply in_app_or in Hin as [Hin | Hin].
    + apply kill_in_kills in Hin. rewrite K1 in Hin. destruct Hin.
    + destruct (kill_each_failure _ _ _ _ _ Hin) as (R & tr & L).
      split; [exact R|]. exists (log r1 ++ tr). now rewrite L, app_assoc.
  - intros Hin. apply kill_in_kills in Hin. rewrite K1 in Hin. destruct Hin.
Qed.

(** *** One turn of the loop *)

Lemma loop_body_facts connected self w :
  let r := loop_body os connected self w in
  Spec.within_config self (self' r)
  /\ printed "Loop terminated." (log r) = 0
  /\ printed "Connected to VPN." (log r)
     = Spec.rises connected (Spec.probes (log r))
  /\ printed "VPN disconnected." (log r)
     = Spec.falls connected (Spec.probes (log r))
  /\ (forall c, res r = Return c -> Spec.probes (log r) = [c]).
Proof.
  cbn zeta.
  pose proof (check_vpn_run self w) as H0.
  destruct (fst (nordvpn_status os w)) as [out|e] eqn:Es.
  - destruct (check_output out) eqn:Eo.
    + assert (E : res (check_vpn os self w) = Return true) by now rewrite H0.
      rewrite (loop_body_up _ _ _ E). cbn zeta. rewrite H0.
      cbn [res self' world' log].
      destruct (run_commands_quiet self (snd (nordvpn_status os w)))
        as (_ & P1 & _ & Pr1 & Wc).
      set (r1 := run_commands os self _) in *.
      destruct (res r1) as [[]|e1].
      * rewrite sys_run. cbn [res self' world' log].
        split; [exact Wc|].
        rewrite !printed_app, !probes_app, P1, !Pr1 by reflexivity.
        cbn [Spec.probes app]. rewrite Eo.
        split; [now destruct connected|].
        split; [now destruct connected|].
        split; [now destruct connected|].
        intros c. destruct (fst (sleep os _ _)); [|discriminate].
        intros [= <-]. now destruct connected.
      * cbn [res self' world' log]. split; [exact Wc|].
        rewrite !printed_app, !probes_app, P1, !Pr1 by reflexivity.
        cbn [Spec.probes app]. rewrite Eo.
        split; [now destruct connected|].
        split; [now destruct connected|].
        split; [now destruct connected|]. discriminate.
    + assert (E : res (check_vpn os self w) = Return false) by now rewrite H0.
      rewrite (loop_body_down _ _ _ E). cbn zeta. rewrite H0.
      cbn [res self' world' log].
      destruct (kill_processes_quiet self (snd (nordvpn_status os w)))
        as (_ & P1 & _ & Pr1 & Wc).
      set (r1 := kill_processes os self _) in *.
      destruct (res r1) as [[]|e1].
      * unfold connect_vpn. rewrite sys_run. cbn [res self' world' log].
        split; [exact Wc|].
        rewrite !printed_app, !probes_app, P1, !Pr1 by reflexivity.
        cbn [Spec.probes app]. rewrite Eo.
        split; [now destruct connected|].
        split; [now destruct connected|].
        split; [now destruct connected|].
        intros c. destruct (fst (nordvpn_c os _)); [|discriminate].
        intros [= <-]. now destruct connected.
      * cbn [res self' world' log]. split; [exact Wc|].
        rewrite !printed_app, !probes_app, P1, !Pr1 by reflexivity.
        cbn [Spec.probes app]. rewrite Eo.
        split; [now destruct connected|].
        split; [now destruct connected|].
        split; [now destruct connected|]. discriminate.
  - assert (E : res (check_vpn os self w) = Raise e) by now rewrite H0.
    rewrite (loop_body_raise _ _ _ _ E). rewrite H0.
    cbn [res self' world' log]. split; [apply within_config_refl|].
    repeat split. discriminate.
Qed.

(** *** The loop *)

Lemma loop_from_facts n connected self w :
  let r := loop_from os n connected self w in
  Spec.within_config self (self' r)
  /\ printed "Loop terminated." (log r) = 0
  /\ printed "Connected to VPN." (log r)
     = Spec.rises connected (Spec.probes (log r))
  /\ printed "VPN disconnected." (log r)
     = Spec.falls connected (Spec.probes (log r)).
Proof.
  revert connected self w.
  induction n as [|n IH]; intros connected self w; cbn [loop_from].
  - simpl. split; [apply within_config_refl | auto].
  - destruct (loop_body_facts connected self w) as (Wc & T & U & D & Pb).
    set (r1 := loop_body os connected self w) in *.
    destruct (res r1) as [c|e] eqn:E1.
    + rewrite (bind_return _ _ _ _ _ E1). cbn zeta.
      cbn [res self' world' log]. fold r1.
      destruct (IH c (self' r1) (world' r1)) as (Wc2 & T2 & U2 & D2).
      set (r2 := loop_from os n c (self' r1) (world' r1)) in *.
      specialize (Pb c eq_refl).
      split; [exact (within_config_trans _ _ _ Wc Wc2)|].
      rewrite !printed_app, probes_app, T, T2, U, U2, D, D2, Pb.
      cbn [Spec.rises Spec.falls app]. repeat split; lia.
    + rewrite (bind_raise _ _ _ _ _ E1). cbn [res self' world' log].
      fold r1. auto.
Qed.

(** *** Lists of launches *)






Lemma in_pids_for cmd pid details found :
  In (cmd, pid, details) found -> In pid (Spec.pids_for cmd found).
Proof.
  induction found as [|[[c p] dt] found IH]; [intros []|].
  cbn [Spec.pids_for]. intros [[= -> -> ->] | Hin].
  - rewrite String.eqb_refl. now left.
  - destruct (String.eqb c cmd); [right|]; auto.
Qed.

End RunFacts.

(** * The claims *)

Section Claims.
Import Sys Sentry.
Context {W : Type} (os : OS W).


(** C4, as amended.  An [os.kill] that raises is not tolerated: the turn
    in which it happens raises the same error, the failed call is the last
    thing the turn does, so the remaining pids are not killed, and the
    loop makes no further turn. *)
Theorem failed_kill_ends_the_loop connected self w pid e n :
  let r := loop_body os connected self w in
  In (Kill pid (Raise e)) (log r) ->
  res r = Raise e
  /\ (exists tr, log r = tr ++ [Kill pid (Raise e)])
  /\ res (loop_from os (S n) connected self w) = Raise e
  /\ log (loop_from os (S n) connected self w) = log r.
Proof.
  intros r Hin.
  assert (H : res r = Raise e /\ exists tr, log r = tr ++ [Kill pid (Raise e)]).
  { subst r. pose proof (check_vpn_run os self w) as H0.
    destruct (res (check_vpn os self w)) as [[]|e0] eqn:E0.
    - rewrite (loop_body_up _ _ _ _ E0) in Hin. cbn zeta in Hin.
      destruct (run_commands_quiet os self (world' (check_vpn os self w)))
        as (K1 & _).
      set (r1 := run_commands os self _) in *.
      apply kill_in_kills in Hin. exfalso.
      rewrite H0 in Hin. cbn [log] in Hin.
      destruct (res r1); cbn [log] in Hin;
        rewrite ?sys_run, !kills_app, K1 in Hin; cbn [log] in Hin;
        destruct connected; exact Hin.
    - rewrite (loop_body_down _ _ _ _ E0) in *. cbn zeta in *.
      pose proof (kill_processes_failure os self
                    (world' (check_vpn os self w)) pid e) as F.
      set (r1 := kill_processes os self _) in *.
      assert (L0 : log (check_vpn os self w)
                   = [Status (fst (nordvpn_status os w))])
        by now rewrite H0.
      destruct (res r1) as [[]|e1] eqn:E1; cbn [res log] in *.
      + exfalso. unfold connect_vpn in Hin. rewrite sys_run in Hin.
        cbn [log] in Hin. rewrite L0 in Hin.
        apply in_app_or in Hin as [[Hev | []] | Hin]; [discriminate Hev|].
        apply in_app_or in Hin as [Hin | Hin];
          [destruct connected; [destruct Hin as [Hev | []];
                               discriminate Hev | destruct Hin]|].
        apply in_app_or in Hin as [Hin | [Hev | [Hev | []]]];
          try discriminate Hev.
        destruct (F Hin) as [R _]. discriminate R.
      + rewrite L0 in Hin.
        apply in_app_or in Hin as [[Hev | []] | Hin]; [discriminate Hev|].
        apply in_app_or in Hin as [Hin | Hin];
          [destruct connected; [destruct Hin as [Hev | []];
                               discriminate Hev | destruct Hin]|].
        destruct (F Hin) as (R & tr & L). split; [congruence|].
        exists ([Status (fst (nordvpn_status os w))]
                ++ Spec.edge_down connected ++ tr).
        rewrite L, L0, <- !app_assoc. reflexivity.
    - rewrite (loop_body_raise _ _ _ _ _ E0) in Hin. rewrite H0 in Hin.
      cbn [log] in Hin. destruct Hin as [Hev | []]. discriminate Hev. }
  destruct H as [R L]. split; [exact R|]. split; [exact L|].
  cbn [loop_from]. fold r. rewrite (bind_raise _ _ _ _ _ R). now split.
Qed.


(** C3, as amended.  A command without a handle has nothing reaped for
    it: when the enumeration returns, every entry found for the command,
    the defunct ones among them, has its pid listed under the command,
    in the order found; the command still has no handle, and every wait
    of the enumeration is on the handle of another command. *)
Theorem unowned_defunct_entry_is_listed self w out cmd d :
  fst (ps_x os w) = Return out ->
  processes self !! cmd = None ->
  let r := parse_ps os self w in
  res r = Return d ->
  Spec.listed cmd d
  = Spec.pids_for cmd (processes_found (command_list self) out)
  /\ (forall pid details,
        In (cmd, pid, details) (processes_found (command_list self) out) ->
        defunct details = true ->
        In pid (Spec.listed cmd d))
  /\ processes (self' r) !! cmd = None
  /\ (forall h, In h (waits (log r)) ->
                exists c, c <> cmd /\ processes self !! c = Some h).
Proof.
  intros Eo Hn r Er.
  destruct (parse_ps_facts os self w) as (_ & _ & _ & _ & Sh & Wt).
  fold r in Sh, Wt.
  assert (Hl : Spec.listed cmd d
               = Spec.pids_for cmd (processes_found (command_list self) out)).
  { subst r. rewrite parse_ps_run, Eo in Er. cbn zeta in Er.
    cbn [res] in Er.
    exact (reap_or_list_no_handle os _ _ _ _ _ _ Hn Er). }
  split; [exact Hl|]. split; [|split].
  - intros pid details Hin _. rewrite Hl.
    exact (in_pids_for _ _ _ _ Hin).
  - destruct (processes (self' r) !! cmd) as [h|] eqn:E; [|reflexivity].
    apply Sh in E. congruence.
  - intros h Hin. destruct (Wt h Hin) as [c Hc]. exists c.
    split; [intros ->; congruence | exact Hc].
Qed.

(** C7, as amended.  When a handle is held for a command and the listing
    has a defunct entry for it, the enumeration of the next turn, in
    either state of the tunnel, waits on the handle and removes it; when
    that enumeration returns, the pids it lists for the command are those
    of all the entries of the command but the first defunct one.  A later
    defunct entry of the same command is listed as live. *)
Theorem first_defunct_entry_is_reaped
    connected self w out cmd h pid details pre post d :
  let r0 := check_vpn os self w in
  (exists up, res r0 = Return up) ->
  fst (ps_x os (world' r0)) = Return out ->
  processes self !! cmd = Some h ->
  processes_found (command_list self) out
  = pre ++ (cmd, pid, details) :: post ->
  Spec.has_defunct cmd pre = false ->
  defunct details = true ->
  let r1 := parse_ps os self (world' r0) in
  res r1 = Return d ->
  processes (self' r1) !! cmd = None
  /\ Spec.listed cmd d = Spec.pids_for cmd pre ++ Spec.pids_for cmd post
  /\ In (Wait h (Return tt)) (log (loop_body os connected self w)).
Proof.
  intros r0 [up E0] Eo Hh Hf Hpre Hd r1 E1.
  assert (H1 : processes (self' r1) !! cmd = None
               /\ In (Wait h (Return tt)) (log r1)
               /\ Spec.listed cmd d
                  = Spec.pids_for cmd pre ++ Spec.pids_for cmd post).
  { subst r1. rewrite parse_ps_run, Eo in *. cbn zeta in *.
    cbn [res self' log] in *. rewrite Hf in *.
    destruct (reap_or_list_first_defunct os cmd h pid details pre post []
                self (snd (ps_x os (world' r0))) d Hh Hpre Hd E1)
      as (A1 & A2 & A3).
    split; [exact A1|]. split; [now right | exact A3]. }
  destruct H1 as (A1 & A2 & A3).
  split; [exact A1|]. split; [exact A3|].
  destruct up.
  - rewrite (loop_body_up _ _ _ _ E0). cbn zeta. fold r0.
    rewrite run_commands_run. cbn zeta. fold r1. rewrite E1.
    cbn zeta. cbn [res self' world' log].
    destruct (res (start_missing os _ _ _ _)); cbn [log]; find_event.
  - rewrite (loop_body_down _ _ _ _ E0). cbn zeta. fold r0.
    rewrite kill_processes_run. cbn zeta. fold r1. rewrite E1.
    cbn zeta. cbn [res self' world' log].
    destruct (res (kill_each os _ _ _)); cbn [log]; find_event.
Qed.


(** C8.  Starting with the flag at disconnected, however long the loop
    turns and whatever ends it, the line Connected to VPN has been
    printed once for every change of the probe's answer to connected and
    the line VPN disconnected once for every change to disconnected, the
    first answer being compared with disconnected.  For the answers
    connected, connected, disconnected that is one line of each. *)
Theorem edges_logged_once_per_change :
  (forall n self w,
      let tr := log (loop os n self w) in
      printed "Connected to VPN." tr = Spec.rises false (Spec.probes tr)
      /\ printed "VPN disconnected." tr = Spec.falls false (Spec.probes tr))
  /\ (let tr := log (loop Script.os 3 init Script.up_up_down) in
      Spec.probes tr = [true; true; false]
      /\ printed "Connected to VPN." tr = 1
      /\ printed "VPN disconnected." tr = 1)
  /\ Spec.rises false [true; true; false] = 1
  /\ Spec.falls false [true; true; false] = 1.
Proof.
  split; [|split; [|split]]; try reflexivity.
  - intros n self w.
    destruct (loop_from_facts os n false self w) as (_ & _ & U & D).
    split; assumption.
  - vm_compute. auto.
Qed.

(** C10.  A new sentry holds no handle; and from an object whose handles
    are handles of configured commands, the enumeration, the launching,
    the killing, a turn of the loop, any number of turns and [run] each
    leave an object whose handles are handles of configured commands, one
    per command, with the configured commands unchanged, whether they
    return or raise. *)
Theorem handles_within_configuration :
  Spec.invariant init init
  /\ forall self w connected n,
       Spec.handles_configured self ->
       Spec.invariant self (self' (parse_ps os self w))
       /\ Spec.invariant self (self' (run_commands os self w))
       /\ Spec.invariant self (self' (kill_processes os self w))
       /\ Spec.invariant self (self' (loop_body os connected self w))
       /\ Spec.invariant self (self' (loop os n self w))
       /\ Spec.invariant self (self' (run os n self w)).
Proof.
  assert (Hinv : forall self s,
             Spec.handles_configured self -> Spec.within_config self s ->
             Spec.invariant self s).
  { intros self s Hc (C & _ & K). split; [|split; [|exact C]].
    - intros cmd Hs. rewrite C. destruct (K cmd Hs) as [H | H]; auto.
    - intros cmd h1 h2 H1 H2. congruence. }
  split.
  - apply Hinv; [|apply within_config_refl].
    intros cmd [h Hh]. unfold init in Hh. cbn [processes] in Hh.
    rewrite lookup_empty in Hh. discriminate.
  - intros self w connected n Hc.
    pose proof (parse_ps_within os self w) as W1.
    destruct (run_commands_quiet os self w) as (_ & _ & _ & _ & W2).
    destruct (kill_processes_quiet os self w) as (_ & _ & _ & _ & W3).
    destruct (loop_body_facts os connected self w) as (W4 & _).
    destruct (loop_from_facts os n false self w) as (W5 & _).
    repeat (split; [now apply Hinv|]).
    apply Hinv; [assumption|].
    unfold run. fold (loop os n self w).
    destruct (res (loop os n self w)); [exact W5|].
    cbn [self']. apply (within_config_trans _ _ _ W5).
    unfold cleanup. rewrite (bind_return (print _) _ _ _ tt eq_refl).
    cbn zeta. cbn [print res self' world' log].
    destruct (kill_processes_quiet os (self' (loop os n self w))
                (world' (loop os n self w))) as (_ & _ & _ & _ & W6).
    exact W6.
Qed.

(** C9.  With the commands deluged and deluge-web configured, the listing
    of the scenario is enumerated as deluged with the one pid 123.  A line
    of a listing matches exactly when it is made of whitespace, a
    non-empty run of digits, one space and the details, the digits read
    in base ten being the pid; a line that does not match adds nothing to
    what is found and raises nothing. *)
Theorem listing_scenario_and_line_shape :
  (forall self w,
      command_list self = ["deluged"; "deluge-web"] ->
      fst (ps_x os w) = Return Script.listing_text ->
      res (parse_ps os self w) = Return [("deluged", [123%Z])])
  /\ (forall out line digits details,
        In line (Text.split Text.newline out) ->
        Text.fullmatch_ps line = Some (digits, details)
        <-> Spec.ps_line line digits details)
  /\ (forall cmds line digits details,
        Text.fullmatch_ps line = Some (digits, details) ->
        found_in_lines cmds [line]
        = found_in_line (Text.int digits) details cmds)
  /\ (forall cmds before line after,
        Text.fullmatch_ps line = None ->
        found_in_lines cmds (before ++ line :: after)
        = found_in_lines cmds (before ++ after)).
Proof.
  split; [|split; [|split]].
  - intros self w Hc Ho. rewrite parse_ps_run, Ho, Hc. cbn zeta.
    assert (Hpf : processes_found ["deluged"; "deluge-web"] Script.listing_text
                  = [("deluged", 123%Z, "deluged --flag")])
      by (vm_compute; reflexivity).
    rewrite Hpf. cbn [res reap_or_list].
    rewrite (bind_return (get processes) _ _ _ _ eq_refl).
    cbn zeta. cbn [get res self' world' log].
    assert (Hd : defunct "deluged --flag" = false) by (vm_compute; reflexivity).
    rewrite Hd. reflexivity.
  - intros out line digits details Hin. rewrite fullmatch_ps_spec.
    split; [tauto|]. intros Hl. split; [exact Hl|].
    apply split_pieces in Hin. destruct Hl as (ws & -> & _).
    rewrite !all_chars_app in Hin.
    repeat (apply andb_prop in Hin as [_ Hin]). exact Hin.
  - intros cmds line digits details Hm. cbn [found_in_lines].
    rewrite Hm. now rewrite app_nil_r.
  - intros cmds before line after Hm.
    induction before as [|l before IH]; cbn [app found_in_lines].
    + now rewrite Hm.
    + destruct (Text.fullmatch_ps l) as [[ds dt]|]; [now rewrite IH | exact IH].
Qed.

End Claims.

(** * The claims on scripted runs *)

Section Scenarios.
Import Sys Sentry.





(** C3 on a run: no handle is held and the listing shows a defunct
    deluged; its pid is listed and nothing is waited for. *)
Lemma unowned_defunct_witness :
  let w := Script.lists_one_zombie in
  let r := parse_ps Script.os init w in
  fst (Script.table w) = Return Script.one_zombie
  /\ processes init !! "deluged" = None
  /\ res r = Return [("deluged", [77%Z])]
  /\ Spec.listed "deluged" [("deluged", [77%Z])]
     = Spec.pids_for "deluged"
         (processes_found (command_list init) Script.one_zombie)
  /\ (forall pid details,
        In ("deluged", pid, details)
           (processes_found (command_list init) Script.one_zombie) ->
        defunct details = true ->
        In pid (Spec.listed "deluged" [("deluged", [77%Z])]))
  /\ processes (self' r) !! "deluged" = None
  /\ (forall h, In h (waits (log r)) ->
                exists c, c <> "deluged" /\ processes init !! c = Some h).
Proof.
  split; [reflexivity|]. split; [reflexivity|]. split; [reflexivity|].
  exact (unowned_defunct_entry_is_listed Script.os init
           Script.lists_one_zombie Script.one_zombie "deluged"
           [("deluged", [77%Z])] eq_refl eq_refl eq_refl).
Defined.

(** C3 as stated fails: no handle is held, the entry found for deluged is
    defunct, and its pid 77 is in the mapping the enumeration returns. *)
Lemma unowned_defunct_pid_is_returned :
  let w := Script.lists_one_zombie in
  processes init !! "deluged" = None
  /\ processes_found (command_list init) Script.one_zombie
     = [("deluged", 77%Z, Script.zombie_details)]
  /\ defunct Script.zombie_details = true
  /\ res (parse_ps Script.os init w) = Return [("deluged", [77%Z])]
  /\ In 77%Z (Spec.listed "deluged" [("deluged", [77%Z])]).
Proof.
  split; [reflexivity|]. split; [reflexivity|]. split; [reflexivity|].
  split; [reflexivity|]. now left.
Qed.

(** C4 on a run: pid 101 has exited; the kill raises, it is the last
    thing the turn does, and the loop stops there. *)
Lemma failed_kill_witness :
  let w := Script.down_stale_pid in
  let r := loop_body Script.os false init w in
  In (Kill 101%Z (Raise ProcessLookupError)) (log r)
  /\ res r = Raise ProcessLookupError
  /\ (exists tr, log r = tr ++ [Kill 101%Z (Raise ProcessLookupError)])
  /\ res (loop_from Script.os 2 false init w) = Raise ProcessLookupError
  /\ log (loop_from Script.os 2 false init w) = log r.
Proof.
  assert (Hin : In (Kill 101%Z (Raise ProcessLookupError))
                   (log (loop_body Script.os false init Script.down_stale_pid)))
    by (vm_compute; tauto).
  split; [exact Hin|].
  exact (failed_kill_ends_the_loop Script.os false init
           Script.down_stale_pid 101%Z ProcessLookupError 1 Hin).
Defined.

(** C4 as stated fails: pid 101 has exited when Kill-all reaches it.  The
    error is not ignored: Kill-all raises it, pid 102 is not killed, and
    the loop, which had a second turn to make, ends with that error after
    one probe. *)
Lemma stale_pid_is_not_tolerated :
  let w := Script.down_stale_pid in
  let r := kill_processes Script.os init
             (world' (check_vpn Script.os init w)) in
  res (parse_ps Script.os init (world' (check_vpn Script.os init w)))
  = Return Script.both_listed
  /\ res r = Raise ProcessLookupError
  /\ kills (log r) = [101%Z]
  /\ res (loop Script.os 2 init w) = Raise ProcessLookupError
  /\ Spec.probes (log (loop Script.os 2 init w)) = [false].
Proof. repeat split; reflexivity. Qed.



(** C6 on the first scenario: the answer is true, and the field is there. *)
Lemma check_vpn_witness :
  check_output "Status: Connected" = true
  /\ exists pre post,
       Spec.status_field "Status: Connected" pre "Connected" post.
Proof.
  split; [reflexivity|].
  exact (proj1 (proj2 check_vpn_connected_iff) "Status: Connected" eq_refl).
Defined.

(** C7 on a run: a handle is held for deluged and the listing has one
    defunct entry for it; the handle is waited for and removed, and the
    entry is not listed. *)
Lemma first_defunct_witness :
  let self := Script.owning_deluged in
  let w := Script.world_of ["Status: Connected"] [Script.one_zombie] [] [] in
  let r0 := check_vpn Script.os self w in
  let r1 := parse_ps Script.os self (world' r0) in
  processes self !! "deluged" = Some 0
  /\ res r1 = Return []
  /\ processes (self' r1) !! "deluged" = None
  /\ Spec.listed "deluged" [] = []
  /\ In (Wait 0 (Return tt)) (log (loop_body Script.os false self w)).
Proof.
  split; [reflexivity|]. split; [reflexivity|].
  exact (first_defunct_entry_is_reaped Script.os false Script.owning_deluged
           (Script.world_of ["Status: Connected"] [Script.one_zombie] [] [])
           Script.one_zombie "deluged" 0 77%Z Script.zombie_details [] [] []
           (ex_intro _ true eq_refl) eq_refl eq_refl eq_refl eq_refl eq_refl
           eq_refl).
Defined.

(** C7 as stated fails: a handle is held for deluged and the listing has
    two defunct entries for it.  The handle is removed, but the defunct
    pid 78 of the second entry is listed as live, and the connected turn
    does not launch deluged again. *)
Lemma second_defunct_pid_is_listed :
  let self := Script.owning_deluged in
  let w := Script.lists_two_zombies in
  let r0 := check_vpn Script.os self w in
  let r1 := parse_ps Script.os self (world' r0) in
  processes self !! "deluged" = Some 0
  /\ processes_found (command_list self) Script.two_zombies
     = [("deluged", 77%Z, Script.zombie_details); ("deluged", 78%Z, Script.zombie_details)]
  /\ defunct Script.zombie_details = true
  /\ res r1 = Return [("deluged", [78%Z])]
  /\ In 78%Z (Spec.listed "deluged" [("deluged", [78%Z])])
  /\ spawns (log (loop_body Script.os false self w)) = ["deluge-web"].
Proof.
  split; [reflexivity|]. split; [reflexivity|]. split; [reflexivity|].
  split; [reflexivity|]. split; [now left | reflexivity].
Qed.

(** C8 on the run of the specification. *)
Lemma edges_witness :
  let tr := log (loop Script.os 3 init Script.up_up_down) in
  printed "Connected to VPN." tr = Spec.rises false (Spec.probes tr)
  /\ printed "VPN disconnected." tr = Spec.falls false (Spec.probes tr).
Proof.
  exact (proj1 (edges_logged_once_per_change Script.os) 3 init
           Script.up_up_down).
Defined.

(** C9 on the scripted listing. *)
Lemma listing_witness :
  let w := Script.world_of [] [Script.listing_text] [] [] in
  command_list init = ["deluged"; "deluge-web"]
  /\ fst (Script.table w) = Return Script.listing_text
  /\ res (parse_ps Script.os init w) = Return [("deluged", [123%Z])].
Proof.
  split; [reflexivity|]. split; [reflexivity|].
  exact (proj1 (listing_scenario_and_line_shape Script.os) init
           (Script.world_of [] [Script.listing_text] [] [])
           eq_refl eq_refl).
Defined.

(** C10 on a run: three turns from a new sentry, then the cleanup. *)
Lemma handles_witness :
  Spec.handles_configured init
  /\ Spec.invariant init (self' (run Script.os 4 init Script.up_up_down)).
Proof.
  destruct (handles_within_configuration Script.os) as [[H0 _] H].
  split; [exact H0|].
  exact (proj2 (proj2 (proj2 (proj2 (proj2
           (H init Script.up_up_down false 4 H0)))))).
Defined.

End Scenarios.

(** * More of the code *)

(** ** Substrings, pids and listings *)

Section MoreTextFacts.
Import Text.

Lemma starts_with_spec (p s : string) :
  starts_with p s = true <-> exists post, s = p +:+ post.
Proof.
  unfold starts_with. destruct (strip_prefix p s) as [r|] eqn:E.
  - apply strip_prefix_spec in E. split; eauto.
  - split; [discriminate|]. intros [post H].
    apply strip_prefix_spec in H. congruence.
Qed.

(** The test [sub in s] holds exactly when [sub] occurs in [s]. *)
Lemma contains_spec (sub s : string) :
  contains sub s = true <-> exists pre post, s = pre +:+ sub +:+ post.
Proof.
  induction s as [|c s IH]; cbn [contains].
  - rewrite orb_false_r, starts_with_spec. split.
    + intros [post H]. exists EmptyString, post. exact H.
    + intros (pre & post & H). destruct pre; [|discriminate H].
      exists post. exact H.
  - rewrite orb_true_iff, starts_with_spec, IH. split.
    + intros [[post H] | (pre & post & H)].
      * exists EmptyString, post. exact H.
      * exists (String c pre), post. simpl. now rewrite H.
    + intros (pre & post & H). destruct pre as [|c' pre].
      * left. exists post. exact H.
      * right. simpl in H. injection H as _ H. eauto.
Qed.

Lemma int_acc_nonneg (s : string) (acc : Z) :
  all_chars is_digit s = true -> (0 <= acc)%Z -> (0 <= int_acc acc s)%Z.
Proof.
  revert acc. induction s as [|c s IH]; intros acc Hd Ha; cbn [int_acc].
  - exact Ha.
  - cbn [all_chars] in Hd. apply andb_prop in Hd as [Hc Hs].
    apply IH; [exact Hs|]. unfold is_digit in Hc.
    apply andb_prop in Hc as [H1 _]. apply N.leb_le in H1. lia.
Qed.

Lemma split_nonempty (sep : ascii) (s : string) : split sep s <> [].
Proof.
  destruct s as [|c s]; cbn [split]; [discriminate|].
  destruct (Ascii.eqb c sep); [discriminate|].
  destruct (split sep s); discriminate.
Qed.

Lemma split_app (sep : ascii) (a b : string) :
  split sep (a +:+ String sep b) = split sep a ++ split sep b.
Proof.
  induction a as [|c a IH]; simpl.
  - now rewrite Ascii.eqb_refl.
  - destruct (Ascii.eqb c sep); [now rewrite IH|].
    rewrite IH. pose proof (split_nonempty sep a) as Hn.
    destruct (split sep a); [congruence | reflexivity].
Qed.

End MoreTextFacts.

Section MoreEnumerationFacts.
Import Sys Sentry.

Lemma found_in_lines_app cmds l1 l2 :
  found_in_lines cmds (l1 ++ l2)
  = found_in_lines cmds l1 ++ found_in_lines cmds l2.
Proof.
  induction l1 as [|l l1 IH]; cbn [app found_in_lines]; [reflexivity|].
  destruct (Text.fullmatch_ps l) as [[ds dt]|]; [|exact IH].
  now rewrite IH, app_assoc.
Qed.

Lemma found_in_line_origin cmd pid details p dt cmds :
  In (cmd, pid, details) (found_in_line p dt cmds) ->
  pid = p /\ details = dt /\ In cmd cmds /\ Text.contains cmd dt = true.
Proof.
  induction cmds as [|c cmds IH]; cbn [found_in_line]; [intros []|].
  destruct (Text.contains c dt) eqn:Ec.
  - intros [[= <- <- <-] | H].
    + repeat split; [now left | exact Ec].
    + destruct (IH H) as (A & B & C & D). repeat split; auto. now right.
  - intros H. destruct (IH H) as (A & B & C & D). repeat split; auto.
    now right.
Qed.

Lemma found_in_lines_origin cmd pid details cmds lines :
  In (cmd, pid, details) (found_in_lines cmds lines) ->
  exists line digits,
    In line lines
    /\ Text.fullmatch_ps line = Some (digits, details)
    /\ pid = Text.int digits
    /\ In cmd cmds
    /\ Text.contains cmd details = true.
Proof.
  induction lines as [|l lines IH]; cbn [found_in_lines]; [intros []|].
  destruct (Text.fullmatch_ps l) as [[ds dt]|] eqn:El.
  - intros H. apply in_app_or in H as [H | H].
    + apply found_in_line_origin in H as (-> & -> & Hc & Hs).
      exists l, ds. repeat split; auto. now left.
    + destruct (IH H) as (line & digits & A & B). exists line, digits.
      split; [now right | exact B].
  - intros H. destruct (IH H) as (line & digits & A & B).
    exists line, digits. split; [now right | exact B].
Qed.

Lemma append_origin c p d k v x :
  In (k, v) (Dict.append c p d) -> In x v ->
  (exists v0, In (k, v0) d /\ In x v0) \/ (k = c /\ x = p).
Proof.
  induction d as [|[k0 v0] d IH]; cbn [Dict.append].
  - intros [[= <- <-] | []] [<- | []]. right. auto.
  - destruct (String.eqb_spec k0 c) as [->|Hne].
    + intros [[= <- <-] | Hin] Hx.
      * apply in_app_or in Hx as [Hx | [<- | []]]; [|right; auto].
        left. exists v0. split; [now left | exact Hx].
      * left. exists v. split; [now right | exact Hx].
    + intros [[= <- <-] | Hin] Hx.
      * left. exists v0. split; [now left | exact Hx].
      * destruct (IH Hin Hx) as [(v1 & H1 & H2) | H]; [|right; exact H].
        left. exists v1. split; [now right | exact H2].
Qed.

Lemma append_keys c p d k :
  In k (Dict.keys (Dict.append c p d)) <-> k = c \/ In k (Dict.keys d).
Proof.
  unfold Dict.keys. induction d as [|[k0 v0] d IH]; cbn [Dict.append].
  - simpl. intuition.
  - destruct (String.eqb_spec k0 c) as [->|Hne]; simpl.
    + intuition.
    + rewrite IH. intuition.
Qed.

Lemma append_well_formed c p d :
  Dict.well_formed d -> Dict.well_formed (Dict.append c p d).
Proof.
  intros [Hn He]. split.
  - unfold Dict.keys in *. induction d as [|[k0 v0] d IH]; cbn [Dict.append].
    + simpl. apply NoDup_singleton.
    + simpl in Hn. apply NoDup_cons in Hn as [Hk Hn].
      destruct (String.eqb_spec k0 c) as [->|Hne]; simpl.
      * apply NoDup_cons. auto.
      * apply NoDup_cons. split.
        -- rewrite list_elem_of_In. intros Hin.
           apply (append_keys c p d k0) in Hin as [-> | Hin]; [congruence|].
           apply Hk. now rewrite list_elem_of_In.
        -- apply IH; [exact Hn|]. intros k v Hin. apply (He k v). now right.
  - clear Hn. induction d as [|[k0 v0] d IH]; cbn [Dict.append].
    + intros k v [[= <- <-] | []]. discriminate.
    + destruct (String.eqb_spec k0 c) as [->|Hne].
      * intros k v [[= <- <-] | Hin].
        -- intros E. apply app_eq_nil in E as [_ E]. discriminate E.
        -- apply (He k v). now right.
      * intros k v [[= <- <-] | Hin].
        -- apply (He k0 v0). now left.
        -- refine (IH _ k v Hin). intros k' v' H'. apply (He k' v').
           now right.
Qed.

Lemma lookup_in cmd d v : Dict.lookup cmd d = Some v -> In (cmd, v) d.
Proof.
  induction d as [|[k0 v0] d IH]; cbn [Dict.lookup]; [discriminate|].
  destruct (String.eqb_spec k0 cmd) as [->|Hne].
  - intros [= <-]. now left.
  - intros H. right. now apply IH.
Qed.

Lemma key_lookup cmd d :
  In cmd (Dict.keys d) -> exists v, Dict.lookup cmd d = Some v.
Proof.
  unfold Dict.keys. induction d as [|[k0 v0] d IH]; [intros []|].
  cbn [Dict.lookup]. destruct (String.eqb_spec k0 cmd) as [->|Hne]; [eauto|].
  intros [H | H]; [simpl in H; congruence | now apply IH].
Qed.

Lemma in_all_pids pid d :
  In pid (Dict.all_pids d) -> exists k v, In (k, v) d /\ In pid v.
Proof.
  unfold Dict.all_pids. induction d as [|[k0 v0] d IH]; [intros []|].
  simpl. intros H. apply in_app_or in H as [H | H].
  - exists k0, v0. split; [now left | exact H].
  - destruct (IH H) as (k & v & A & B). exists k, v.
    split; [now right | exact B].
Qed.

End MoreEnumerationFacts.

(** ** More on the runs of the methods *)

Section MoreRunFacts.
Import Sys Sentry.
Context {W : Type} (os : OS W).

Lemma connects_app a b : connects (a ++ b) = connects a + connects b.
Proof.
  induction a as [|[] a IH]; simpl; try assumption;
    [reflexivity | now rewrite IH].
Qed.

Lemma sleeps_app a b : sleeps (a ++ b) = sleeps a ++ sleeps b.
Proof.
  induction a as [|[] a IH]; simpl; try assumption;
    [reflexivity | now rewrite IH].
Qed.

Lemma enum_calm tr :
  Forall Spec.enum_event tr -> connects tr = 0 /\ sleeps tr = [].
Proof.
  induction 1 as [|ev tr Hev _ IH]; [now split|].
  destruct ev; try contradiction; simpl; exact IH.
Qed.

Lemma kill_calm tr :
  Forall Spec.kill_event tr -> connects tr = 0 /\ sleeps tr = [].
Proof.
  induction 1 as [|ev tr Hev _ IH]; [now split|].
  destruct ev; try contradiction; simpl; exact IH.
Qed.


Lemma kill_processes_calm self w :
  connects (log (kill_processes os self w)) = 0
  /\ sleeps (log (kill_processes os self w)) = []
  /\ self' (kill_processes os self w) = self' (parse_ps os self w).
Proof.
  rewrite kill_processes_run. cbn zeta.
  destruct (parse_ps_facts os self w) as (F & _).
  apply enum_calm in F as (C1 & S1).
  set (r1 := parse_ps os self w) in *.
  destruct (res r1) as [d|e]; cbn [res self' world' log]; [|auto].
  destruct (kill_each_run os d (self' r1) (world' r1)) as (Se & F2 & _).
  apply kill_calm in F2 as (C2 & S2).
  now rewrite connects_app, sleeps_app, C1, C2, S1, S2.
Qed.


(** The trace of a turn, laid out by what the probe answered and by
    whether the work of the turn returned. *)
Lemma loop_body_log connected self w :
  log (loop_body os connected self w)
  = let r0 := check_vpn os self w in
    match res r0 with
    | Return true =>
        let r1 := run_commands os self (world' r0) in
        log r0 ++ Spec.edge_up connected ++ log r1
        ++ match res r1 with
           | Return _ =>
               [Sleep (poll_rate (self' r1))
                  (fst (sleep os (poll_rate (self' r1)) (world' r1)))]
           | Raise _ => []
           end
    | Return false =>
        let r1 := kill_processes os self (world' r0) in
        log r0 ++ Spec.edge_down connected ++ log r1
        ++ match res r1 with
           | Return _ =>
               [Print "Connecting to VPN...";
                Connect (fst (nordvpn_c os (world' r1)))]
           | Raise _ => []
           end
    | Raise _ => log r0
    end.
Proof.
  cbn zeta. destruct (res (check_vpn os self w)) as [[]|e] eqn:E0.
  - rewrite (loop_body_up _ _ _ _ E0). cbn zeta.
    destruct (res (run_commands os self _)); cbn [log].
    + now rewrite sys_run.
    + now rewrite app_nil_r.
  - rewrite (loop_body_down _ _ _ _ E0). cbn zeta.
    destruct (res (kill_processes os self _)); cbn [log].
    + unfold connect_vpn. now rewrite sys_run.
    + now rewrite app_nil_r.
  - now rewrite (loop_body_raise _ _ _ _ _ E0).
Qed.

Lemma check_vpn_log self w :
  log (check_vpn os self w) = [Status (fst (nordvpn_status os w))].
Proof. now rewrite check_vpn_run. Qed.

(** The second pass, seen from a run that returned: what holds of the
    dictionary it returns, step by step. *)
Lemma reap_or_list_returns
    (P : list (string * Z * string) -> Dict.t -> Dict.t -> Prop) :
  (forall acc, P [] acc acc) ->
  (forall c p dt found acc d,
      defunct dt = true -> P found acc d -> P ((c, p, dt) :: found) acc d) ->
  (forall c p dt found acc d,
      P found (Dict.append c p acc) d -> P ((c, p, dt) :: found) acc d) ->
  forall found acc self w d,
    res (reap_or_list os found acc self w) = Return d -> P found acc d.
Proof.
  intros Hnil Hreap Hlist found.
  induction found as [|[[c p] dt] found IH]; intros acc self w d;
    cbn [reap_or_list].
  - simpl. intros [= <-]. apply Hnil.
  - rewrite (bind_return (get processes) _ self w (processes self) eq_refl).
    cbn zeta. cbn [get res self' world' log app].
    destruct (if defunct dt then processes self !! c else None) as [h|] eqn:Eh.
    + assert (Hdt : defunct dt = true)
        by (destruct (defunct dt); [reflexivity | discriminate]).
      set (m := sys (popen_wait os h) (Wait h)).
      pose proof (sys_run (popen_wait os h) (Wait h) self w) as Hm.
      fold m in Hm.
      destruct (fst (popen_wait os h w)) as [[]|e] eqn:Ew.
      * assert (E : res (m self w) = Return tt) by now rewrite Hm.
        rewrite (bind_return _ _ _ _ _ E). rewrite Hm. cbn zeta.
        cbn [res self' world' log app].
        rewrite (bind_return (set_processes _) _ self _ tt eq_refl).
        cbn zeta. cbn [set_processes res self' world' log app].
        intros Hr. apply Hreap; [exact Hdt|]. exact (IH _ _ _ _ Hr).
      * assert (E : res (m self w) = Raise e) by now rewrite Hm.
        rewrite (bind_raise _ _ _ _ _ E). discriminate.
    + intros Hr. apply Hlist. exact (IH _ _ _ _ Hr).
Qed.

Lemma reap_or_list_origin found acc self w d :
  res (reap_or_list os found acc self w) = Return d ->
  forall k v x,
    In (k, v) d -> In x v ->
    (exists v0, In (k, v0) acc /\ In x v0)
    \/ exists details, In (k, x, details) found.
Proof.
  apply (reap_or_list_returns (fun found acc d =>
           forall k v x, In (k, v) d -> In x v ->
             (exists v0, In (k, v0) acc /\ In x v0)
             \/ exists details, In (k, x, details) found)).
  - intros acc0 k v x Hk Hx. left. eauto.
  - intros c p dt found0 acc0 d0 _ IH k v x Hk Hx.
    destruct (IH k v x Hk Hx) as [H | [details H]]; [now left|].
    right. exists details. now right.
  - intros c p dt found0 acc0 d0 IH k v x Hk Hx.
    destruct (IH k v x Hk Hx) as [(v0 & H1 & H2) | [details H]].
    + destruct (append_origin _ _ _ _ _ _ H1 H2) as [H | [-> ->]];
        [now left|]. right. exists dt. now left.
    + right. exists details. now right.
Qed.

Lemma reap_or_list_well_formed found acc self w d :
  res (reap_or_list os found acc self w) = Return d ->
  Dict.well_formed acc -> Dict.well_formed d.
Proof.
  apply (reap_or_list_returns (fun found acc d =>
           Dict.well_formed acc -> Dict.well_formed d)); auto.
  intros c p dt found0 acc0 d0 IH Hw. apply IH.
  now apply append_well_formed.
Qed.

(** An entry that is not defunct is listed. *)
Lemma reap_or_list_lists cmd found acc self w d :
  res (reap_or_list os found acc self w) = Return d ->
  (forall x, In x (Spec.listed cmd acc) -> In x (Spec.listed cmd d))
  /\ (forall pid details,
        In (cmd, pid, details) found -> defunct details = false ->
        In pid (Spec.listed cmd d)).
Proof.
  apply (reap_or_list_returns (fun found acc d =>
           (forall x, In x (Spec.listed cmd acc) -> In x (Spec.listed cmd d))
           /\ (forall pid details,
                 In (cmd, pid, details) found -> defunct details = false ->
                 In pid (Spec.listed cmd d)))).
  - intros acc0. split; [auto | intros pid details []].
  - intros c p dt found0 acc0 d0 Hdt [IH1 IH2]. split; [exact IH1|].
    intros pid details [[= -> -> ->] | Hin] Hd; [congruence | eauto].
  - intros c p dt found0 acc0 d0 [IH1 IH2]. split.
    + intros x Hx. apply IH1. rewrite listed_append.
      apply in_or_app. now left.
    + intros pid details [[= -> -> ->] | Hin] Hd; [|eauto].
      apply IH1. rewrite listed_append, String.eqb_refl.
      apply in_or_app. right. now left.
Qed.

Lemma found_in_line_complete cmd p dt cmds :
  In cmd cmds -> Text.contains cmd dt = true ->
  In (cmd, p, dt) (found_in_line p dt cmds).
Proof.
  intros Hin Hc. induction cmds as [|c cmds IH]; [destruct Hin|].
  cbn [found_in_line]. destruct Hin as [-> | Hin].
  - rewrite Hc. now left.
  - destruct (Text.contains c dt); [right|]; auto.
Qed.

Lemma found_in_lines_complete cmd ds dt line cmds lines :
  In line lines -> Text.fullmatch_ps line = Some (ds, dt) ->
  In cmd cmds -> Text.contains cmd dt = true ->
  In (cmd, Text.int ds, dt) (found_in_lines cmds lines).
Proof.
  intros Hl Hm Hc Hs. induction lines as [|l lines IH]; [destruct Hl|].
  cbn [found_in_lines]. destruct Hl as [-> | Hl].
  - rewrite Hm. apply in_or_app. left. now apply found_in_line_complete.
  - destruct (Text.fullmatch_ps l) as [[ds0 dt0]|]; [|auto].
    apply in_or_app. right. auto.
Qed.

Lemma parse_ps_returns self w d :
  res (parse_ps os self w) = Return d ->
  exists out,
    fst (ps_x os w) = Return out
    /\ res (reap_or_list os (processes_found (command_list self) out) []
              self (snd (ps_x os w))) = Return d.
Proof.
  rewrite parse_ps_run. destruct (fst (ps_x os w)) as [out|e]; [|discriminate].
  cbn zeta. cbn [res]. eauto.
Qed.

(** A handle leaves the map only when its wait has returned. *)
Lemma reap_or_list_handles found acc self w cmd h :
  processes self !! cmd = Some h ->
  let r := reap_or_list os found acc self w in
  processes (self' r) !! cmd = Some h
  \/ (processes (self' r) !! cmd = None /\ In (Wait h (Return tt)) (log r)).
Proof.
  revert acc self w.
  induction found as [|[[c p] dt] found IH]; intros acc self w Hh;
    cbn [reap_or_list].
  - simpl. now left.
  - rewrite (bind_return (get processes) _ self w (processes self) eq_refl).
    cbn zeta. cbn [get res self' world' log app].
    destruct (if defunct dt then processes self !! c else None) as [h0|] eqn:Eh.
    + assert (Hc : processes self !! c = Some h0)
        by (destruct (defunct dt); [assumption | discriminate]).
      set (m := sys (popen_wait os h0) (Wait h0)).
      pose proof (sys_run (popen_wait os h0) (Wait h0) self w) as Hm.
      fold m in Hm.
      destruct (fst (popen_wait os h0 w)) as [[]|e] eqn:Ew.
      * assert (E : res (m self w) = Return tt) by now rewrite Hm.
        rewrite (bind_return _ _ _ _ _ E). rewrite Hm. cbn zeta.
        cbn [res self' world' log app].
        set (self1 := with_processes self (delete c (processes self))).
        rewrite (bind_return (set_processes _) _ self _ tt eq_refl).
        cbn zeta. cbn [set_processes res self' world' log app]. fold self1.
        destruct (String.eqb_spec c cmd) as [->|Hne].
        -- right. assert (h0 = h) by congruence. subst h0.
           split; [|now left].
           destruct (reap_or_list_run os found acc self1
                       (snd (popen_wait os h w))) as (_ & _ & _ & Sh & _).
           destruct (processes (self' _) !! cmd) as [h'|] eqn:E';
             [|reflexivity].
           apply Sh in E'. unfold self1 in E'. simpl in E'.
           rewrite lookup_delete_eq in E'. discriminate E'.
        -- assert (H1 : processes self1 !! cmd = Some h)
             by (simpl; rewrite lookup_delete_ne; auto).
           destruct (IH acc self1 (snd (popen_wait os h0 w)) H1)
             as [H | [H Hin]]; [now left|].
           right. split; [exact H | now right].
      * assert (E : res (m self w) = Raise e) by now rewrite Hm.
        rewrite (bind_raise _ _ _ _ _ E). rewrite Hm.
        cbn [res self' world' log]. now left.
    + apply IH. exact Hh.
Qed.

Lemma through_incl {A B} (ret : option B) (planned done : list A) failed x :
  Spec.through_or_failure ret planned done failed ->
  In x done -> In x planned.
Proof.
  intros [[_ ->] | (pre & y & post & -> & -> & _)]; [auto|].
  intros Hin. apply in_app_or in Hin as [Hin | [<- | []]];
    apply in_or_app; [now left | right; now left].
Qed.

Lemma in_missing c cmds running :
  In c cmds -> existsb (String.eqb c) running = false ->
  In c (Spec.missing cmds running).
Proof.
  intros Hin Hr. induction cmds as [|cmd cmds IH]; [destruct Hin|].
  cbn [Spec.missing]. destruct Hin as [-> | Hin].
  - rewrite Hr. now left.
  - destruct (existsb (String.eqb cmd) running); [|right]; auto.
Qed.

Lemma pids_for_nil_no_defunct cmd found :
  Spec.pids_for cmd found = [] -> Spec.has_defunct cmd found = false.
Proof.
  induction found as [|[[c p] dt] found IH]; [reflexivity|].
  cbn [Spec.pids_for Spec.has_defunct].
  destruct (String.eqb c cmd); [discriminate|]. exact IH.
Qed.

(** The pids [kill_processes] signals were read off digits. *)
Lemma kill_processes_nonneg self w pid :
  In pid (kills (log (kill_processes os self w))) -> (0 <= pid)%Z.
Proof.
  rewrite kill_processes_run. cbn zeta.
  destruct (parse_ps_facts os self w) as (F & _).
  apply enum_quiet in F as (K1 & _).
  destruct (res (parse_ps os self w)) as [d|e] eqn:Ep; cbn [log].
  - rewrite kills_app, K1. cbn [app]. intros Hin.
    destruct (kill_each_run os d (self' (parse_ps os self w))
                (world' (parse_ps os self w))) as (_ & _ & T).
    apply (through_incl _ _ _ _ _ T) in Hin.
    apply in_all_pids in Hin as (k & v & Hk & Hv).
    apply parse_ps_returns in Ep as (out & _ & Er).
    destruct (reap_or_list_origin _ _ _ _ _ Er k v pid Hk Hv)
      as [(v0 & [] & _) | [details Hf]].
    apply found_in_lines_origin in Hf as (line & ds & _ & Hm & -> & _).
    apply fullmatch_ps_spec in Hm as [(ws & _ & _ & _ & Hd) _].
    apply int_acc_nonneg; [exact Hd | lia].
  - rewrite K1. intros [].
Qed.

End MoreRunFacts.

(** ** Properties of the listing *)

(** X9.  The first pass of [parse_ps] treats the lines of the listing one
    by one: what is found in two texts joined by a newline is what is found
    in the first followed by what is found in the second. *)
Theorem listings_concatenate (cmds : list string) (a b : string) :
  Sentry.processes_found cmds (a +:+ String Text.newline b)
  = Sentry.processes_found cmds a ++ Sentry.processes_found cmds b.
Proof.
  unfold Sentry.processes_found. now rewrite split_app, found_in_lines_app.
Qed.

Section Extras.
Import Sys Sentry.
Context {W : Type} (os : OS W).

(** X1.  Every pid the enumeration returns under a command was read off a
    line of the listing: the command is a configured one, the line has the
    shape whitespace, digits, space, details, the pid is the digits read in
    base ten, and the command occurs in the details as a substring. *)
Theorem listed_pid_comes_from_a_matching_line self w d cmd pid :
  res (parse_ps os self w) = Return d ->
  In pid (Spec.listed cmd d) ->
  In cmd (command_list self)
  /\ exists out line digits details,
       fst (ps_x os w) = Return out
       /\ In line (Text.split Text.newline out)
       /\ Spec.ps_line line digits details
       /\ pid = Text.int digits
       /\ exists pre post, details = pre +:+ cmd +:+ post.
Proof.
  intros Ep Hin. unfold Spec.listed in Hin.
  destruct (Dict.lookup cmd d) as [v|] eqn:El; [|destruct Hin].
  apply lookup_in in El.
  apply parse_ps_returns in Ep as (out & Eo & Er).
  destruct (reap_or_list_origin os _ _ _ _ _ Er cmd v pid El Hin)
    as [(v0 & [] & _) | [details Hf]].
  apply found_in_lines_origin in Hf as (line & ds & Hl & Hm & -> & Hc & Hs).
  split; [exact Hc|]. exists out, line, ds, details.
  split; [exact Eo|]. split; [exact Hl|].
  apply fullmatch_ps_spec in Hm as [Hm _].
  split; [exact Hm|]. split; [reflexivity|]. now apply contains_spec.
Qed.

(** X2.  The dictionary the enumeration returns has no key twice, no key
    with an empty list of pids, and only configured commands as keys. *)
Theorem enumeration_is_well_formed self w d :
  res (parse_ps os self w) = Return d ->
  Dict.well_formed d /\ forall k v, In (k, v) d -> In k (command_list self).
Proof.
  intros Ep. apply parse_ps_returns in Ep as (out & Eo & Er).
  assert (Hw : Dict.well_formed d).
  { apply (reap_or_list_well_formed os _ _ _ _ _ Er).
    split; [constructor | intros k v []]. }
  split; [exact Hw|]. intros k v Hk.
  destruct v as [|x v]; [destruct (proj2 Hw k [] Hk); reflexivity|].
  destruct (reap_or_list_origin os _ _ _ _ _ Er k (x :: v) x Hk (or_introl eq_refl))
    as [(v0 & [] & _) | [details Hf]].
  apply found_in_lines_origin in Hf as (line & ds & _ & _ & _ & Hc & _).
  exact Hc.
Qed.

(** X3.  No pid handed to [os.kill] is negative, in the loop or in the
    cleanup: the pids are numbers read off runs of digits. *)
Theorem killed_pids_are_not_negative n self w pid :
  In pid (kills (log (run os n self w))) -> (0 <= pid)%Z.
Proof.
  assert (Hturn : forall c s0 w0,
             In pid (kills (log (loop_body os c s0 w0))) -> (0 <= pid)%Z).
  { intros c s0 w0. rewrite loop_body_log. cbn zeta.
    rewrite check_vpn_log.
    destruct (res (check_vpn os s0 w0)) as [[]|e].
    - destruct (run_commands_quiet os s0 (world' (check_vpn os s0 w0)))
        as (K & _).
      rewrite !kills_app, K.
      destruct (res (run_commands os s0 _)); destruct c; intros [].
    - rewrite !kills_app. cbn [kills app]. intros Hin.
      apply in_app_or in Hin as [Hin | Hin];
        [destruct c; destruct Hin|].
      apply in_app_or in Hin as [Hin | Hin].
      + exact (kill_processes_nonneg os _ _ _ Hin).
      + destruct (res (kill_processes os s0 _)); destruct Hin.
    - intros []. }
  assert (Hloop : forall m c s0 w0,
             In pid (kills (log (loop_from os m c s0 w0))) -> (0 <= pid)%Z).
  { induction m as [|m IH]; intros c s0 w0; cbn [loop_from]; [intros []|].
    destruct (res (loop_body os c s0 w0)) as [c'|e] eqn:E.
    - rewrite (bind_return _ _ _ _ _ E). cbn zeta. cbn [log].
      rewrite kills_app. intros Hin.
      apply in_app_or in Hin as [Hin | Hin]; [eapply Hturn | eapply IH];
        exact Hin.
    - rewrite (bind_raise _ _ _ _ _ E). cbn [log]. apply Hturn. }
  unfold run. fold (loop os n self w).
  destruct (res (loop os n self w)) as [c|e]; [apply Hloop|].
  cbn [log]. unfold cleanup.
  rewrite (bind_return (print _) _ _ _ tt eq_refl). cbn zeta.
  cbn [print res self' world' log]. rewrite kills_app. cbn [kills app].
  intros Hin. apply in_app_or in Hin as [Hin | Hin];
    [exact (Hloop _ _ _ _ Hin) | exact (kill_processes_nonneg os _ _ _ Hin)].
Qed.

(** X4.  When the listing holds no line of a configured command,
    [kill_processes] lists, kills nothing, prints nothing, leaves the
    handles alone and returns; the empty listing is such a listing. *)
Theorem nothing_found_nothing_killed :
  (forall self w out,
      fst (ps_x os w) = Return out ->
      processes_found (command_list self) out = [] ->
      kill_processes os self w
      = Run (Return tt) self (snd (ps_x os w)) [Ps (Return out)])
  /\ (forall cmds, processes_found cmds EmptyString = []).
Proof.
  split; [|reflexivity]. intros self w out Eo Hf.
  rewrite kill_processes_run, parse_ps_run, Eo, Hf. reflexivity.
Qed.

(** X5.  When the listing itself raises, the turn ends with that error
    right there, in either state of the tunnel: the trace holds the probe,
    the edge line if there is an edge, and the failed listing; nothing is
    killed or launched and the handles are as they were. *)
Theorem failed_listing_ends_the_turn connected self w up e :
  let r0 := check_vpn os self w in
  res r0 = Return up ->
  fst (ps_x os (world' r0)) = Raise e ->
  let r := loop_body os connected self w in
  res r = Raise e
  /\ self' r = self
  /\ log r = log r0
             ++ (if up then Spec.edge_up connected
                 else Spec.edge_down connected)
             ++ [Ps (Raise e)].
Proof.
  intros r0 E0 Ep r. subst r. destruct up.
  - rewrite (loop_body_up _ _ _ _ E0). cbn zeta. fold r0.
    rewrite run_commands_run, parse_ps_run, Ep. cbn. auto.
  - rewrite (loop_body_down _ _ _ _ E0). cbn zeta. fold r0.
    rewrite kill_processes_run, parse_ps_run, Ep. cbn. auto.
Qed.



(** X8.  A command the loop holds a handle for, whose only entry in the
    listing is a defunct one, is reaped and launched again within the same
    connected turn, when that turn returns. *)
Theorem reaped_command_is_launched_again
    connected self w out cmd h pid details pre post up :
  let r0 := check_vpn os self w in
  res r0 = Return true ->
  fst (ps_x os (world' r0)) = Return out ->
  processes self !! cmd = Some h ->
  In cmd (command_list self) ->
  processes_found (command_list self) out
  = pre ++ (cmd, pid, details) :: post ->
  Spec.pids_for cmd pre = [] ->
  Spec.pids_for cmd post = [] ->
  defunct details = true ->
  let r := loop_body os connected self w in
  res r = Return up ->
  In (Wait h (Return tt)) (log r) /\ In cmd (spawns (log r)).
Proof.
  intros r0 E0 Eo Hh Hc Hf Hpre Hpost Hd r Hr.
  assert (Hlog := loop_body_log os connected self w).
  cbn zeta in Hlog. fold r r0 in Hlog. rewrite E0 in Hlog.
  unfold r in Hr. rewrite (loop_body_up _ _ _ _ E0) in Hr. cbn zeta in Hr.
  fold r0 in Hr.
  destruct (res (run_commands os self (world' r0))) as [[]|e] eqn:Erc;
    [clear Hr | discriminate Hr].
  pose proof (run_commands_run os self (world' r0)) as Hrc. cbn zeta in Hrc.
  destruct (parse_ps_facts os self (world' r0)) as (_ & _ & C & _).
  set (rp := parse_ps os self (world' r0)) in *.
  destruct (res rp) as [d|e] eqn:Ep;
    [|rewrite Hrc in Erc; discriminate Erc].
  rewrite C in Hrc.
  destruct (start_missing_run os (command_list self) (Dict.keys d)
              (self' rp) (world' rp)) as (_ & _ & _ & _ & _ & T & _).
  set (rs := start_missing os (command_list self) (Dict.keys d)
               (self' rp) (world' rp)) in *.
  assert (Ers : res rs = Return tt) by (rewrite Hrc in Erc; exact Erc).
  pose proof Ep as Ep'. unfold rp in Ep'.
  rewrite parse_ps_run, Eo in Ep'. cbn zeta in Ep'. cbn [res] in Ep'.
  rewrite Hf in Ep'.
  destruct (reap_or_list_first_defunct os cmd h pid details pre post []
              self (snd (ps_x os (world' r0))) d Hh
              (pids_for_nil_no_defunct _ _ Hpre) Hd Ep') as (_ & Hw & Hl).
  rewrite Hpre, Hpost in Hl. cbn [Spec.listed app] in Hl.
  assert (Hwf : Dict.well_formed d).
  { rewrite <- Hf in Ep'.
    apply (reap_or_list_well_formed os _ _ _ _ _ Ep').
    split; [constructor | intros k v []]. }
  assert (Hk : existsb (String.eqb cmd) (Dict.keys d) = false).
  { destruct (existsb (String.eqb cmd) (Dict.keys d)) eqn:Ex; [|reflexivity].
    apply existsb_exists in Ex as (k & Hin & Ek).
    apply String.eqb_eq in Ek. subst k.
    apply key_lookup in Hin as [v Hv]. unfold Spec.listed in Hl.
    rewrite Hv in Hl. subst v. apply lookup_in in Hv.
    destruct (proj2 Hwf _ _ Hv eq_refl). }
  assert (Hsp : In cmd (spawns (log rs))).
  { destruct T as [[_ T] | (a & x & b & _ & _ & (e & tr & E & _))];
      [|congruence].
    rewrite T. now apply in_missing. }
  assert (Hlrc : log (run_commands os self (world' r0)) = log rp ++ log rs)
    by now rewrite Hrc.
  assert (Hwp : In (Wait h (Return tt)) (log rp)).
  { unfold rp. rewrite parse_ps_run, Eo. cbn zeta. cbn [log].
    right. rewrite Hf. exact Hw. }
  rewrite Hlog, Hlrc. split.
  - find_event.
  - rewrite !spawns_app. apply in_or_app. right. apply in_or_app. right.
    apply in_or_app. left. apply in_or_app. now right.
Qed.

(** X10.  The enumeration drops a handle only after the wait on it has
    returned, and so does [kill_processes], which drops no handle of its
    own: killing a process does not release its handle. *)
Theorem handle_removed_only_after_wait self w cmd h :
  processes self !! cmd = Some h ->
  (let r := parse_ps os self w in
   processes (self' r) !! cmd = Some h
   \/ (processes (self' r) !! cmd = None /\ In (Wait h (Return tt)) (log r)))
  /\ (let r := kill_processes os self w in
      processes (self' r) !! cmd = Some h
      \/ (processes (self' r) !! cmd = None
          /\ In (Wait h (Return tt)) (log r))).
Proof.
  intros Hh.
  assert (Hp : processes (self' (parse_ps os self w)) !! cmd = Some h
               \/ (processes (self' (parse_ps os self w)) !! cmd = None
                   /\ In (Wait h (Return tt)) (log (parse_ps os self w)))).
  { rewrite parse_ps_run. destruct (fst (ps_x os w)) as [out|e].
    - cbn zeta. cbn [self' log].
      destruct (reap_or_list_handles os
                  (processes_found (command_list self) out) [] self
                  (snd (ps_x os w)) cmd h Hh) as [H | [H Hin]];
        [now left | right; split; [exact H | now right]].
    - cbn [self']. now left. }
  split; [exact Hp|]. cbn zeta.
  destruct (kill_processes_calm os self w) as (_ & _ & ->).
  destruct Hp as [H | [H Hin]]; [now left|]. right. split; [exact H|].
  rewrite kill_processes_run. cbn zeta.
  destruct (res (parse_ps os self w)); cbn [log]; find_event.
Qed.



(** X13.  Every line of the listing that has the shape whitespace, digits,
    space, details, whose details hold a configured command as a substring
    and are not marked defunct, has its pid listed under that command when
    the enumeration returns, whatever else the line is a line of. *)
Theorem matching_live_line_is_listed
    self w out d line digits details cmd pre post :
  fst (ps_x os w) = Return out ->
  res (parse_ps os self w) = Return d ->
  In line (Text.split Text.newline out) ->
  Spec.ps_line line digits details ->
  In cmd (command_list self) ->
  details = pre +:+ cmd +:+ post ->
  defunct details = false ->
  In (Text.int digits) (Spec.listed cmd d).
Proof.
  intros Eo Ep Hl Hs Hc Hd Hz.
  apply parse_ps_returns in Ep as (out' & Eo' & Er).
  assert (out' = out) by congruence. subst out'.
  assert (Hm : Text.fullmatch_ps line = Some (digits, details)).
  { apply fullmatch_ps_spec. split; [exact Hs|].
    apply split_pieces in Hl. destruct Hs as (ws & -> & _).
    rewrite !all_chars_app in Hl.
    repeat (apply andb_prop in Hl as [_ Hl]). exact Hl. }
  assert (Hsub : Text.contains cmd details = true)
    by (apply contains_spec; eauto).
  destruct (reap_or_list_lists os cmd _ _ _ _ _ Er) as [_ H].
  apply (H (Text.int digits) details); [|exact Hz].
  unfold processes_found.
  exact (found_in_lines_complete _ _ _ _ _ _ Hl Hm Hc Hsub).
Qed.

End Extras.

(** ** The further properties on scripted runs *)

Section MoreScenarios.
Import Sys Sentry.

(** X1 on a run: pid 101, listed under deluged. *)
Lemma listed_pid_witness :
  let w := Script.world_of [] [Script.both_running] [] [] in
  res (parse_ps Script.os init w) = Return Script.both_listed
  /\ In 101%Z (Spec.listed "deluged" Script.both_listed)
  /\ In "deluged" (command_list init)
  /\ exists out line digits details,
       fst (Script.table w) = Return out
       /\ In line (Text.split Text.newline out)
       /\ Spec.ps_line line digits details
       /\ 101%Z = Text.int digits
       /\ exists pre post, details = pre +:+ "deluged" +:+ post.
Proof.
  split; [reflexivity|]. split; [now left|].
  exact (listed_pid_comes_from_a_matching_line Script.os init
           (Script.world_of [] [Script.both_running] [] [])
           Script.both_listed "deluged" 101%Z eq_refl (or_introl eq_refl)).
Defined.

(** X2 on a run: the dictionary made of the listing of both commands. *)
Lemma well_formed_witness :
  let w := Script.world_of [] [Script.both_running] [] [] in
  res (parse_ps Script.os init w) = Return Script.both_listed
  /\ Dict.well_formed Script.both_listed
  /\ forall k v, In (k, v) Script.both_listed -> In k (command_list init).
Proof.
  split; [reflexivity|].
  exact (enumeration_is_well_formed Script.os init
           (Script.world_of [] [Script.both_running] [] [])
           Script.both_listed eq_refl).
Defined.

(** X3 on a run: the cleanup after an interrupt kills pid 101. *)
Lemma killed_pid_witness :
  In 101%Z (kills (log (run Script.os 1 init Script.interrupted)))
  /\ (0 <= 101)%Z.
Proof.
  assert (Hin : In 101%Z (kills (log (run Script.os 1 init Script.interrupted))))
    by (vm_compute; tauto).
  split; [exact Hin|].
  exact (killed_pids_are_not_negative Script.os 1 init Script.interrupted
           101%Z Hin).
Defined.

(** X4 on a run: an empty listing. *)
Lemma nothing_found_witness :
  let w := Script.world_of [] [EmptyString] [] [] in
  fst (Script.table w) = Return EmptyString
  /\ processes_found (command_list init) EmptyString = []
  /\ kill_processes Script.os init w
     = Run (Return tt) init (snd (Script.table w)) [Ps (Return EmptyString)].
Proof.
  split; [reflexivity|]. split; [reflexivity|].
  exact (proj1 (nothing_found_nothing_killed Script.os) init
           (Script.world_of [] [EmptyString] [] []) EmptyString
           eq_refl eq_refl).
Defined.

(** X5 on a run: the tunnel is down and the listing is interrupted. *)
Lemma failed_listing_witness :
  let w := Script.world_of ["Status: Disconnected"] [] [] [] in
  let r0 := check_vpn Script.os init w in
  let r := loop_body Script.os true init w in
  res r0 = Return false
  /\ fst (Script.table (world' r0)) = Raise KeyboardInterrupt
  /\ res r = Raise KeyboardInterrupt
  /\ self' r = init
  /\ log r = log r0 ++ Spec.edge_down true ++ [Ps (Raise KeyboardInterrupt)].
Proof.
  split; [reflexivity|]. split; [reflexivity|].
  exact (failed_listing_ends_the_turn Script.os true init
           (Script.world_of ["Status: Disconnected"] [] [] [])
           false KeyboardInterrupt eq_refl eq_refl).
Defined.


(** X8 on a run: deluged, launched as child 0, is defunct and nothing else
    of that name is listed. *)
Lemma relaunch_witness :
  let self := Script.owning_deluged in
  let w := Script.world_of ["Status: Connected"] [Script.one_zombie] [] [] in
  let r := loop_body Script.os true self w in
  processes self !! "deluged" = Some 0
  /\ res r = Return true
  /\ In (Wait 0 (Return tt)) (log r)
  /\ In "deluged" (spawns (log r)).
Proof.
  split; [reflexivity|]. split; [reflexivity|].
  exact (reaped_command_is_launched_again Script.os true
           Script.owning_deluged
           (Script.world_of ["Status: Connected"] [Script.one_zombie] [] [])
           Script.one_zombie "deluged" 0 77%Z Script.zombie_details [] []
           true eq_refl eq_refl eq_refl (or_introl eq_refl) eq_refl eq_refl
           eq_refl eq_refl eq_refl).
Defined.

(** X10 on a run: the handle of deluged and a listing with its zombie. *)
Lemma handle_wait_witness :
  let self := Script.owning_deluged in
  let w := Script.lists_one_zombie in
  processes self !! "deluged" = Some 0
  /\ (let r := parse_ps Script.os self w in
      processes (self' r) !! "deluged" = Some 0
      \/ (processes (self' r) !! "deluged" = None
          /\ In (Wait 0 (Return tt)) (log r)))
  /\ (let r := kill_processes Script.os self w in
      processes (self' r) !! "deluged" = Some 0
      \/ (processes (self' r) !! "deluged" = None
          /\ In (Wait 0 (Return tt)) (log r))).
Proof.
  split; [reflexivity|].
  exact (handle_removed_only_after_wait Script.os Script.owning_deluged
           Script.lists_one_zombie "deluged" 0 eq_refl).
Defined.

(** X13 on a run: a pager reading the log of deluged is listed under
    deluged. *)
Lemma matching_line_witness :
  let out := "  900 pts/0  S+  0:00 less /var/log/deluged.log" in
  let w := Script.world_of [] [out] [] [] in
  fst (Script.table w) = Return out
  /\ res (parse_ps Script.os init w) = Return [("deluged", [900%Z])]
  /\ In (Text.int "900") (Spec.listed "deluged" [("deluged", [900%Z])]).
Proof.
  split; [reflexivity|]. split; [reflexivity|].
  refine (matching_live_line_is_listed Script.os init
            (Script.world_of [] ["  900 pts/0  S+  0:00 less /var/log/deluged.log"] [] [])
            "  900 pts/0  S+  0:00 less /var/log/deluged.log"
            [("deluged", [900%Z])]
            "  900 pts/0  S+  0:00 less /var/log/deluged.log"
            "900" "pts/0  S+  0:00 less /var/log/deluged.log" "deluged"
            "pts/0  S+  0:00 less /var/log/" ".log"
            eq_refl eq_refl (or_introl eq_refl) _ (or_introl eq_refl)
            eq_refl eq_refl).
  exists "  ". split; [reflexivity|]. split; [reflexivity|].
  split; [discriminate | reflexivity].
Defined.

End MoreScenarios.
